(** * OSCClient: request/response correlation over OSC datagrams

    A shallow embedding of [src/osc-client.ts].  The class keeps a
    [Map] from OSC address to the [resolve] function of the promise that
    waits for a reply on that address, a connected flag, and talks to the
    world through [osc.send], [setTimeout], [setInterval] and
    [console.error].  The embedding threads one record through every
    method; promises, timers, the outgoing datagram queue and the virtual
    clock of the event loop are fields of that record. *)

From Stdlib Require Import ZArith QArith Lqa String.
From Stdlib Require Import Floats.PrimFloat.
From stdpp Require Import gmap strings list pretty.

Local Open Scope Z_scope.

(** ** Values, messages, promises, timers *)

(** A JavaScript value as it travels in [message.args] or settles a
    promise: a number (binary64), a string, or [undefined]. *)
Inductive value :=
| VNum (x : float)
| VStr (s : string)
| VUndefined.

(** [new OSC.Message(address, ...args)] and the messages the ["*"]
    handler receives. *)
Record Message := mkMessage { address : string; args : list value }.

(** State of a promise returned by [sendAndReceive]. *)
Inductive settlement :=
| Pending
| Fulfilled (v : value)
| Rejected (err : string).

(** The two closures the class hands to the timer queue:
    the body of [setTimeout] in [sendAndReceive] (which captures the
    address and the [reject] of its promise) and the arrow function of
    [setInterval] in [connect]. *)
Inductive timer_callback :=
| TimeoutCheck (address : string) (reject : nat)
| KeepAlive.

Record timer := mkTimer {
  due : Z;                  (* virtual time in ms at which it becomes runnable *)
  period : option Z;        (* [Some p] for setInterval, [None] for setTimeout *)
  callback : timer_callback }.

(** Outcome of a synchronous call. *)
Inductive completion :=
| Returned
| Threw (err : string).

(** ** The client *)

Record OSCClient := mkClient {
  host : string;
  port : Z;
  responseCallbacks : gmap string nat;  (* address ↦ promise whose resolve is stored *)
  isConnected : bool;
  osc_open : bool;                      (* socket of [this.osc] *)
  outbox : list Message;                (* arguments of [osc.send], oldest first *)
  promises : list settlement;           (* promise i is [promises !! i] *)
  timers : list timer;                  (* in creation order *)
  clock : Z;
  stderr : list string }.

Definition set_responseCallbacks (m : gmap string nat) (c : OSCClient) :=
  mkClient (host c) (port c) m (isConnected c) (osc_open c) (outbox c)
           (promises c) (timers c) (clock c) (stderr c).
Definition set_isConnected (b : bool) (c : OSCClient) :=
  mkClient (host c) (port c) (responseCallbacks c) b (osc_open c) (outbox c)
           (promises c) (timers c) (clock c) (stderr c).
Definition set_osc_open (b : bool) (c : OSCClient) :=
  mkClient (host c) (port c) (responseCallbacks c) (isConnected c) b (outbox c)
           (promises c) (timers c) (clock c) (stderr c).
Definition set_outbox (o : list Message) (c : OSCClient) :=
  mkClient (host c) (port c) (responseCallbacks c) (isConnected c) (osc_open c) o
           (promises c) (timers c) (clock c) (stderr c).
Definition set_promises (p : list settlement) (c : OSCClient) :=
  mkClient (host c) (port c) (responseCallbacks c) (isConnected c) (osc_open c)
           (outbox c) p (timers c) (clock c) (stderr c).
Definition set_timers (t : list timer) (c : OSCClient) :=
  mkClient (host c) (port c) (responseCallbacks c) (isConnected c) (osc_open c)
           (outbox c) (promises c) t (clock c) (stderr c).
Definition set_clock (t : Z) (c : OSCClient) :=
  mkClient (host c) (port c) (responseCallbacks c) (isConnected c) (osc_open c)
           (outbox c) (promises c) (timers c) t (stderr c).
Definition set_stderr (l : list string) (c : OSCClient) :=
  mkClient (host c) (port c) (responseCallbacks c) (isConnected c) (osc_open c)
           (outbox c) (promises c) (timers c) (clock c) l.

(** [constructor(host, port)]: empty callback map, not connected. *)
Definition constructor (h : string) (p : Z) : OSCClient :=
  mkClient h p ∅ false false [] [] [] 0 [].

(** *** Environment primitives *)

Definition console_error (s : string) (c : OSCClient) : OSCClient :=
  set_stderr (stderr c ++ [s]) c.

Definition osc_send (m : Message) (c : OSCClient) : OSCClient :=
  set_outbox (outbox c ++ [m]) c.

(** [new Promise(...)]: the new promise is the next index. *)
Definition new_promise (c : OSCClient) : nat * OSCClient :=
  (length (promises c), set_promises (promises c ++ [Pending]) c).

(** Calling [resolve] or [reject] of promise [pid]: only a pending
    promise changes. *)
Definition settle (pid : nat) (s : settlement) (c : OSCClient) : OSCClient :=
  match promises c !! pid with
  | Some Pending => set_promises (<[pid := s]> (promises c)) c
  | _ => c
  end.

Definition setTimeout (cb : timer_callback) (ms : Z) (c : OSCClient) : OSCClient :=
  set_timers (timers c ++ [mkTimer (clock c + ms) None cb]) c.

Definition setInterval (cb : timer_callback) (ms : Z) (c : OSCClient) : OSCClient :=
  set_timers (timers c ++ [mkTimer (clock c + ms) (Some ms) cb]) c.

(** *** Methods *)

(** [sendCommand(address, args?)], lines 66-74.  An absent [args] is the
    empty list ([...(args || [])]).  The connected branch is the branch
    for arguments that osc-js can encode (see [encodable] below): for
    another argument [new OSC.Message] throws, which is outside this
    definition; the calls of the class pass no argument to a getter, and
    the properties of setters below are stated for encodable arguments. *)
Definition sendCommand (address : string) (args : list value) (c : OSCClient)
  : completion * OSCClient :=
  if isConnected c
  then (Returned, osc_send (mkMessage address args) c)
  else (Returned, console_error "OSC not connected" c).

(** The handler registered with [this.osc.on("*", ...)], lines 27-35.
    [message.args] of an osc-js message is always an array, so the test
    [message.args && message.args.length > 0] is a test on its length. *)
Definition onMessage (message : Message) (c : OSCClient) : OSCClient :=
  match responseCallbacks c !! address message with
  | Some callback =>
      match args message with
      | v :: _ =>
          let c := settle callback (Fulfilled v) c in
          set_responseCallbacks (delete (address message) (responseCallbacks c)) c
      | [] => c
      end
  | None => c
  end.

Definition timeout_message (address : string) : string :=
  "Timeout waiting for response from " +:+ address.

(** The statements of the promise executor of [sendAndReceive], lines
    78-87, in program order; [pid] is the promise under construction. *)
Definition sendAndReceive_body (address : string) (args : list value) (pid : nat)
  : list (OSCClient → OSCClient) :=
  [ (λ c, set_responseCallbacks (<[address := pid]> (responseCallbacks c)) c);
    (λ c, match sendCommand address args c with
          | (Returned, c) => c
          | (Threw e, c) => settle pid (Rejected e) c
          end);
    setTimeout (TimeoutCheck address pid) 1000 ].

Definition exec (body : list (OSCClient → OSCClient)) (c : OSCClient) : OSCClient :=
  foldl (λ c f, f c) c body.

(** [sendAndReceive(address, args?)]: the promise and the state once the
    executor has run. *)
Definition sendAndReceive (address : string) (args : list value) (c : OSCClient)
  : nat * OSCClient :=
  let '(pid, c) := new_promise c in
  (pid, exec (sendAndReceive_body address args pid) c).

(** What a timer runs when it fires. *)
Definition run_callback (cb : timer_callback) (c : OSCClient) : OSCClient :=
  match cb with
  | TimeoutCheck address reject =>
      if decide (is_Some (responseCallbacks c !! address))
      then settle reject (Rejected (timeout_message address))
             (set_responseCallbacks (delete address (responseCallbacks c)) c)
      else c
  | KeepAlive => (sendCommand "/xremote" [] c).2
  end.

(** [connect()], lines 42-64.  [open_error] is what [this.osc.open]
    throws, if anything; the result is the settlement of the returned
    promise. *)
Definition connect (open_error : option string) (c : OSCClient)
  : settlement * OSCClient :=
  match open_error with
  | Some e => (Rejected e, c)
  | None =>
      let c := set_osc_open true c in
      let c := set_isConnected true c in
      let c := console_error "OSC UDP Port ready" c in
      let c := (sendCommand "/xcontrol" [] c).2 in
      let c := setInterval KeepAlive 9000 c in
      (Fulfilled VUndefined, c)
  end.

(** [close()], lines 695-698. *)
Definition close (c : OSCClient) : OSCClient :=
  set_osc_open false (set_isConnected false c).

(** ** The event loop *)

(** The timer that runs next: the earliest [due], the oldest among
    equals; returned with the timers that stay queued. *)
Fixpoint next_timer (ts : list timer) : option (timer * list timer) :=
  match ts with
  | [] => None
  | t :: ts' =>
      match next_timer ts' with
      | None => Some (t, [])
      | Some (u, rest) =>
          if due t <=? due u then Some (t, ts') else Some (u, t :: rest)
      end
  end.

(** An interval timer is queued again one period later. *)
Definition rearm (t : timer) : list timer :=
  match period t with
  | Some p => [mkTimer (due t + p) (Some p) (callback t)]
  | None => []
  end.

(** One turn of the timer phase: the clock moves to the due time of the
    next timer and its callback runs.  [None] when no timer is queued. *)
Definition tick (c : OSCClient) : option OSCClient :=
  match next_timer (timers c) with
  | None => None
  | Some (t, rest) =>
      Some (run_callback (callback t)
              (set_clock (Z.max (clock c) (due t))
                 (set_timers (rest ++ rearm t) c)))
  end.

(** What can happen to a client: its public methods are called, a
    datagram comes in, a timer fires, or time passes idly.  [Issue] is
    any getter (they all go through [sendAndReceive]), [Command] any
    setter (they all go through [sendCommand]).  Whether [osc.open]
    throws in a [Connect] is for the environment to say; osc-js binds the
    one socket it made in the constructor, so there it throws in every
    [connect] after the first that succeeded. *)
Inductive event :=
| Connect (open_error : option string)
| Issue (address : string) (args : list value)
| Command (address : string) (args : list value)
| Inbound (message : Message)
| Tick
| Sleep (ms : Z)
| Close.

(** Time may pass idly only as long as no queued timer becomes overdue. *)
Definition sleep (ms : Z) (c : OSCClient) : option OSCClient :=
  if decide ((0 ≤ ms)%Z ∧ Forall (λ t, (clock c + ms ≤ due t)%Z) (timers c))
  then Some (set_clock (clock c + ms) c)
  else None.

Definition step (e : event) (c : OSCClient) : option OSCClient :=
  match e with
  | Connect err => Some (connect err c).2
  | Issue address args => Some (sendAndReceive address args c).2
  | Command address args => Some (sendCommand address args c).2
  | Inbound message => Some (onMessage message c)
  | Tick => tick c
  | Sleep ms => sleep ms c
  | Close => Some (close c)
  end.

Fixpoint run (es : list event) (c : OSCClient) : option OSCClient :=
  match es with
  | [] => Some c
  | e :: es => c' ← step e c; run es c'
  end.

(** [n] consecutive timer turns. *)
Fixpoint ticks (n : nat) (c : OSCClient) : option OSCClient :=
  match n with
  | O => Some c
  | S n => c' ← tick c; ticks n c'
  end.

(** ** Path builder *)

(** [String.prototype.padStart(targetLength, padString)]. *)
Fixpoint pad_fill (n : nat) (padString : string) (k : nat) : string :=
  match k with
  | O => ""
  | S k =>
      if decide (n ≤ String.length padString)%nat
      then substring 0 n padString
      else padString +:+ pad_fill (n - String.length padString) padString k
  end.

Definition padStart (targetLength : nat) (padString : string) (s : string) : string :=
  if decide (targetLength ≤ String.length s)%nat then s
  else if decide (padString = "") then s
  else pad_fill (targetLength - String.length s) padString targetLength +:+ s.

(** [getChannelPath(channel)], for a channel number that is a natural
    number.  [pretty] is the decimal notation, which is what [toString]
    gives for every integer JavaScript represents exactly (up to
    [Number.MAX_SAFE_INTEGER], see [safe_index] below; [toString] turns
    to exponent notation only from 1e21 on). *)
Definition getChannelPath (channel : nat) : string :=
  "/ch/" +:+ padStart 2 "0" (pretty channel).

(** ** Unit codec *)

(** The arithmetic the codec is written in.  JavaScript evaluates it in
    binary64; the same expressions read over the rationals give the
    conversion without rounding. *)
Class Arith (A : Type) := {
  lit : Z → A;
  plus : A → A → A;
  minus : A → A → A;
  times : A → A → A;
  divide : A → A → A }.

(** The binary64 number of an integer, built by doubling: exact for every
    integer of magnitude below 2^53, which covers the literals of the
    codec and every [safe_integer]. *)
Fixpoint float_of_positive (p : positive) : float :=
  match p with
  | xH => 1%float
  | xO p => (2 * float_of_positive p)%float
  | xI p => (2 * float_of_positive p + 1)%float
  end.

Definition float_of_Z (z : Z) : float :=
  match z with
  | Z0 => 0%float
  | Zpos p => float_of_positive p
  | Zneg p => (- float_of_positive p)%float
  end.

#[export] Instance float_Arith : Arith float :=
  {| lit := float_of_Z; plus := PrimFloat.add; minus := PrimFloat.sub;
     times := PrimFloat.mul; divide := PrimFloat.div |}.

#[export] Instance Q_Arith : Arith Q :=
  {| lit := inject_Z; plus := Qplus; minus := Qminus;
     times := Qmult; divide := Qdiv |}.

Section Codec.
Context {A : Type} `{Arith A}.

(** [setPan], line 142, and [getPan], line 150. *)
Definition setPan_wire (pan : A) : A := divide (plus pan (lit 1)) (lit 2).
Definition getPan_human (value : A) : A := minus (times value (lit 2)) (lit 1).

(** [setEQ], line 173, and [getEQ], line 181. *)
Definition setEQ_wire (gain : A) : A := divide (plus gain (lit 15)) (lit 30).
Definition getEQ_human (value : A) : A := minus (times value (lit 30)) (lit 15).

(** [setGate], line 209, and [getGate], line 216. *)
Definition setGate_wire (threshold : A) : A := divide (plus threshold (lit 80)) (lit 80).
Definition getGate_human (value : A) : A := minus (times value (lit 80)) (lit 80).
End Codec.

(** [a === b] on the values of the model: numbers compare as IEEE
    numbers, values of different types are never equal. *)
Definition strict_equals (a b : value) : bool :=
  match a, b with
  | VNum x, VNum y => PrimFloat.eqb x y
  | VStr s, VStr t => bool_decide (s = t)
  | VUndefined, VUndefined => true
  | _, _ => false
  end.

(** ** Public methods *)

(** An [async] method whose body is one [sendCommand]: its promise is
    settled when the method returns. *)
Definition async_command (address : string) (args : list value) (c : OSCClient)
  : settlement * OSCClient :=
  match sendCommand address args c with
  | (Returned, c) => (Fulfilled VUndefined, c)
  | (Threw e, c) => (Rejected e, c)
  end.

(** What [await sendAndReceive(path)] followed by [return k(value)]
    makes of the promise of the call: nothing while it is pending, the
    converted value, or the error of the call. *)
Definition await_then {R : Type} (k : value → R) (s : option settlement)
  : option (R + string) :=
  match s with
  | Some (Fulfilled v) => Some (inl (k v))
  | Some (Rejected e) => Some (inr e)
  | _ => None
  end.

(** [muteChannel], lines 127-131: [mute ? 0 : 1]. *)
Definition muteChannel (channel : nat) (mute : bool) (c : OSCClient) :=
  async_command (getChannelPath channel +:+ "/mix/on")
    [VNum (if mute then 0 else 1)%float] c.

(** [getMute], lines 133-137: the call, and the conversion of its reply. *)
Definition getMute (channel : nat) (c : OSCClient) : nat * OSCClient :=
  sendAndReceive (getChannelPath channel +:+ "/mix/on") [] c.
Definition getMute_result (pid : nat) (c : OSCClient) : option (bool + string) :=
  await_then (λ value, strict_equals value (VNum 0%float)) (promises c !! pid).

(** [setEQOn], lines 199-202, and [setGateOn], lines 219-222: [on ? 1 : 0]. *)
Definition setEQOn (channel : nat) (on : bool) (c : OSCClient) :=
  async_command (getChannelPath channel +:+ "/eq/on")
    [VNum (if on then 1 else 0)%float] c.
Definition setGateOn (channel : nat) (on : bool) (c : OSCClient) :=
  async_command (getChannelPath channel +:+ "/gate/on")
    [VNum (if on then 1 else 0)%float] c.

(** [setPan], lines 139-144, and [setEQ], lines 170-175. *)
Definition setPan (channel : nat) (pan : float) (c : OSCClient) :=
  async_command (getChannelPath channel +:+ "/mix/pan") [VNum (setPan_wire pan)] c.
Definition setEQ (channel band : nat) (gain : float) (c : OSCClient) :=
  async_command (getChannelPath channel +:+ "/eq/" +:+ pretty band +:+ "/g")
    [VNum (setEQ_wire gain)] c.

(** ** Pending calls *)

(** The call [pid] is pending on [address]: its [resolve] is the
    callback stored for the address and its promise is not settled. *)
Definition registered (address : string) (pid : nat) (c : OSCClient) : Prop :=
  responseCallbacks c !! address = Some pid ∧ promises c !! pid = Some Pending.

(** The state a run ends in, for runs that do not get stuck. *)
Definition after (es : list event) (c : OSCClient) : OSCClient :=
  default c (run es c).

(** States the executor of [sendAndReceive] goes through: the state
    before its first statement and the state after each statement. *)
Fixpoint states (body : list (OSCClient → OSCClient)) (c : OSCClient)
  : list OSCClient :=
  match body with
  | [] => [c]
  | f :: body => c :: states body (f c)
  end.

(** Invariant of the client: stored callbacks belong to promises that
    exist, no promise is stored under two addresses, and a queued timeout
    names the only address its promise can be stored under. *)
Record wf (c : OSCClient) : Prop := {
  wf_bound : ∀ a p, responseCallbacks c !! a = Some p →
                    (p < length (promises c))%nat;
  wf_inj : ∀ a b p, responseCallbacks c !! a = Some p →
                    responseCallbacks c !! b = Some p → a = b;
  wf_timer : ∀ t a q, t ∈ timers c → callback t = TimeoutCheck a q →
                    (q < length (promises c))%nat
                    ∧ ∀ b, responseCallbacks c !! b = Some q → b = a }.

(** An event disturbs the registration on address [a] when it is another
    call on [a], a reply for [a] that carries an argument, or the firing
    of a timeout that was armed for [a]. *)
Definition disturbs (a : string) (c : OSCClient) (e : event) : bool :=
  match e with
  | Issue a' _ => bool_decide (a' = a)
  | Inbound m => bool_decide (address m = a ∧ args m ≠ [])
  | Tick =>
      match next_timer (timers c) with
      | Some (t, _) =>
          match callback t with
          | TimeoutCheck a' _ => bool_decide (a' = a)
          | KeepAlive => false
          end
      | None => false
      end
  | _ => false
  end.

Fixpoint undisturbed (a : string) (es : list event) (c : OSCClient) : bool :=
  match es with
  | [] => true
  | e :: es =>
      negb (disturbs a c e)
      && match step e c with
         | Some c' => undisturbed a es c'
         | None => true
         end
  end.

(** The promises whose callback is stored for address [a]: the entries
    of the [Map] with key [a]. *)
Definition pending_calls_on (a : string) (c : OSCClient) : list nat :=
  (filter (λ kv, kv.1 = a) (map_to_list (responseCallbacks c))).*2.

(** How many messages for address [a] were handed to the transport. *)
Definition sent_on (a : string) (c : OSCClient) : nat :=
  length (filter (λ m, address m = a) (outbox c)).

Definition is_keepalive (t : timer) : bool :=
  match callback t with KeepAlive => true | TimeoutCheck _ _ => false end.

(** What the user of a connected client does while the connection
    lasts: anything but [connect] and [close], and no hand-made
    ["/xremote"] or ["/xcontrol"] command. *)
Definition user_event (e : event) : Prop :=
  match e with
  | Connect _ | Close => False
  | Issue a _ | Command a _ => a ≠ "/xremote" ∧ a ≠ "/xcontrol"
  | Inbound _ | Tick | Sleep _ => True
  end.

Definition not_connect (e : event) : Prop :=
  match e with Connect _ => False | _ => True end.

(** A client on which [connect] has not been called: every queued timer
    is a timeout that is not overdue. *)
Definition never_connected (c : OSCClient) : Prop :=
  Forall (λ t, clock c ≤ due t ∧ period t = None ∧ is_keepalive t = false)
         (timers c).

(** The keep-alive of a connection opened at time [t0], when the outbox
    held [base] renewals: the client is connected, one keep-alive
    interval is queued, [j] renewals were sent since, the last one at
    [t0 + 9000 * j], and the next one is due 9000 ms after that. *)
Record alive (t0 : Z) (base basex : nat) (c : OSCClient) (j : nat) : Prop := {
  alive_connected : isConnected c = true;
  alive_sent : sent_on "/xremote" c = (base + j)%nat;
  alive_once : sent_on "/xcontrol" c = basex;
  alive_queue : filter (λ t, is_keepalive t = true) (timers c)
                = [mkTimer (t0 + 9000 * (Z.of_nat j + 1)) (Some 9000) KeepAlive];
  alive_clock : t0 + 9000 * Z.of_nat j ≤ clock c;
  alive_timers : Forall (λ t, clock c ≤ due t
                              ∧ (is_keepalive t = true ∨ period t = None))
                        (timers c) }.

(** ** Scenarios *)

(** A client of the mixer at its default port, and the same client once
    [connect] has succeeded. *)
Definition fresh : OSCClient := constructor "192.168.1.17" 10023.
Definition connected : OSCClient := after [Connect None] fresh.

(** A call on ["/info"] made half a second ago and still unanswered. *)
Definition half_waited : OSCClient :=
  after [Issue "/info" []; Sleep 500] connected.

(** A call on ["/info"] that was answered after 100 ms, 400 ms before now. *)
Definition answered : OSCClient :=
  after [Issue "/info" []; Sleep 100;
         Inbound (mkMessage "/info" [VStr "X32"]); Sleep 400] connected.

(** * The rest of the class *)

(** ** More paths *)

(** [getBusPath], [getAuxPath], [getMatrixPath], [getDCAPath] and
    [getHeadampPath], lines 95-113. *)
Definition getBusPath (bus : nat) : string :=
  "/bus/" +:+ padStart 2 "0" (pretty bus).
Definition getAuxPath (aux : nat) : string :=
  "/aux/" +:+ padStart 2 "0" (pretty aux).
Definition getMatrixPath (matrix : nat) : string :=
  "/mtx/" +:+ padStart 2 "0" (pretty matrix).
Definition getDCAPath (dca : nat) : string :=
  "/dca/" +:+ pretty dca.
Definition getHeadampPath (headamp : nat) : string :=
  "/headamp/" +:+ padStart 3 "0" (pretty headamp).

(** ** Faders and sends *)

(** [setFader], [getFader], lines 117-125, and [getChannelMeter], lines
    418-423. *)
Definition setFader (channel : nat) (level : float) (c : OSCClient) :=
  async_command (getChannelPath channel +:+ "/mix/fader") [VNum level] c.
Definition getFader (channel : nat) (c : OSCClient) : nat * OSCClient :=
  sendAndReceive (getChannelPath channel +:+ "/mix/fader") [] c.
Definition getChannelMeter (channel : nat) (c : OSCClient) : nat * OSCClient :=
  sendAndReceive (getChannelPath channel +:+ "/mix/fader") [] c.

(** [sendToBus], [getSendToBus], [sendToAux], lines 314-327, and
    [sendToMatrix], lines 570-573. *)
Definition sendToBus (channel bus : nat) (level : float) (c : OSCClient) :=
  async_command
    (getChannelPath channel +:+ "/mix/" +:+ padStart 2 "0" (pretty bus) +:+ "/level")
    [VNum level] c.
Definition getSendToBus (channel bus : nat) (c : OSCClient) : nat * OSCClient :=
  sendAndReceive
    (getChannelPath channel +:+ "/mix/" +:+ padStart 2 "0" (pretty bus) +:+ "/level")
    [] c.
Definition sendToAux (channel aux : nat) (level : float) (c : OSCClient) :=
  async_command
    (getChannelPath channel +:+ "/mix/"
       +:+ padStart 2 "0" (pretty (aux + 15)%nat) +:+ "/level")
    [VNum level] c.
Definition sendToMatrix (channel matrix : nat) (level : float) (c : OSCClient) :=
  async_command
    (getChannelPath channel +:+ "/mix/"
       +:+ padStart 2 "0" (pretty (matrix + 22)%nat) +:+ "/level")
    [VNum level] c.

(** ** Boolean controls with a getter *)

(** [setSolo], [getSolo], lines 487-496. *)
Definition setSolo (channel : nat) (solo : bool) (c : OSCClient) :=
  async_command (getChannelPath channel +:+ "/mix/solo")
    [VNum (if solo then 1 else 0)%float] c.
Definition getSolo (channel : nat) (c : OSCClient) : nat * OSCClient :=
  sendAndReceive (getChannelPath channel +:+ "/mix/solo") [] c.
Definition getSolo_result (pid : nat) (c : OSCClient) : option (bool + string) :=
  await_then (λ value, strict_equals value (VNum 1%float)) (promises c !! pid).

(** [setTalkback], [getTalkback], lines 639-646. *)
Definition setTalkback (enabled : bool) (c : OSCClient) :=
  async_command "/-stat/talk" [VNum (if enabled then 1 else 0)%float] c.
Definition getTalkback (c : OSCClient) : nat * OSCClient :=
  sendAndReceive "/-stat/talk" [] c.
Definition getTalkback_result (pid : nat) (c : OSCClient) : option (bool + string) :=
  await_then (λ value, strict_equals value (VNum 1%float)) (promises c !! pid).

(** ** Compressor *)

Section Compressor.
Context {A : Type} `{Arith A}.

(** [setCompressor], lines 233 and 237. *)
Definition setCompressor_threshold_wire (threshold : A) : A :=
  divide (plus threshold (lit 60)) (lit 60).
Definition setCompressor_ratio_wire (ratio : A) : A :=
  divide (minus ratio (lit 1)) (lit 19).
End Compressor.

(** [setCompressor], lines 224-239: two commands, threshold first. *)
Definition setCompressor (channel : nat) (threshold ratio : float) (c : OSCClient)
  : settlement * OSCClient :=
  match sendCommand (getChannelPath channel +:+ "/dyn/thr")
          [VNum (setCompressor_threshold_wire threshold)] c with
  | (Threw e, c) => (Rejected e, c)
  | (Returned, c) =>
      async_command (getChannelPath channel +:+ "/dyn/ratio")
        [VNum (setCompressor_ratio_wire ratio)] c
  end.

(** ** Scenes *)

(** The scene number is an integer; [scene - 1] is sent as a number and
    printed, for the path, in decimal with its sign, as [toString] does
    for a [safe_integer]. *)
Definition scene_name_path (scene : Z) : string :=
  "/-snap/" +:+ padStart 3 "0" (pretty (scene - 1)) +:+ "/name".

(** [recallScene], lines 397-400. *)
Definition recallScene (scene : Z) (c : OSCClient) :=
  async_command "/-snap/load" [VNum (float_of_Z (scene - 1))] c.

(** [saveScene], lines 402-409.  [name] is optional; [if (name)] holds
    for a name that is given and is not the empty string. *)
Definition saveScene (scene : Z) (name : option string) (c : OSCClient)
  : settlement * OSCClient :=
  match sendCommand "/-snap/store" [VNum (float_of_Z (scene - 1))] c with
  | (Threw e, c) => (Rejected e, c)
  | (Returned, c) =>
      match name with
      | Some n =>
          if decide (n = "") then (Fulfilled VUndefined, c)
          else async_command (scene_name_path scene) [VStr n] c
      | None => (Fulfilled VUndefined, c)
      end
  end.

(** [getSceneName], lines 411-414. *)
Definition getSceneName (scene : Z) (c : OSCClient) : nat * OSCClient :=
  sendAndReceive (scene_name_path scene) [] c.

(** ** Meters *)


(** ** Status *)

(** What [getMixerStatus] returns: the object of the [try] branch, whose
    [status] is [null] when the ["/status"] call failed, or the object of
    the [catch] branch. *)
Inductive MixerStatus :=
| StatusConnected (host : string) (port : Z) (info : value) (status : option value)
| StatusDisconnected (host : string) (port : Z) (error : string).

(** Where [getMixerStatus], lines 662-682, stands: at its first [await],
    at its second, or returned. *)
Inductive getMixerStatus_state :=
| AwaitInfo (pid : nat)
| AwaitStatus (info : value) (pid : nat)
| StatusDone (result : MixerStatus).

(** The call, up to the first [await]. *)
Definition getMixerStatus (c : OSCClient) : getMixerStatus_state * OSCClient :=
  let '(pid, c) := sendAndReceive "/info" [] c in (AwaitInfo pid, c).

(** The continuation, run when the awaited promise is settled.  A
    rejection of the ["/info"] call lands in [catch]; the errors the
    class rejects with are [Error] objects, whose [message] is reported.
    A rejection of the ["/status"] call is turned into [null] by its own
    [.catch]. *)
Definition getMixerStatus_resume (s : getMixerStatus_state) (c : OSCClient)
  : getMixerStatus_state * OSCClient :=
  match s with
  | AwaitInfo pid =>
      match promises c !! pid with
      | Some (Fulfilled info) =>
          let '(pid', c) := sendAndReceive "/status" [] c in
          (AwaitStatus info pid', c)
      | Some (Rejected e) =>
          (StatusDone (StatusDisconnected (host c) (port c) e), c)
      | _ => (s, c)
      end
  | AwaitStatus info pid =>
      match promises c !! pid with
      | Some (Fulfilled st) =>
          (StatusDone (StatusConnected (host c) (port c) info (Some st)), c)
      | Some (Rejected _) =>
          (StatusDone (StatusConnected (host c) (port c) info None), c)
      | _ => (s, c)
      end
  | StatusDone _ => (s, c)
  end.

(** ** What the environment accepts *)

(** The arguments [new OSC.Message] accepts: osc-js gives a type tag to
    a number that is not NaN and to a string, and throws for NaN and for
    [undefined]. *)
Definition encodable (v : value) : bool :=
  match v with
  | VNum x => negb (PrimFloat.is_nan x)
  | VStr _ => true
  | VUndefined => false
  end.

(** [Number.MAX_SAFE_INTEGER], 2^53 - 1: up to it every integer is a
    JavaScript number and [toString] is its decimal notation. *)
Definition MAX_SAFE_INTEGER : Z := 9007199254740991.

Definition safe_index (n : nat) : Prop := Z.of_nat n ≤ MAX_SAFE_INTEGER.

Definition safe_integer (z : Z) : Prop :=
  - MAX_SAFE_INTEGER ≤ z ≤ MAX_SAFE_INTEGER.

(** ** Bookkeeping of runs *)

(** The keep-alive intervals that are queued. *)
Definition keepalives (c : OSCClient) : nat :=
  length (filter (λ t, is_keepalive t = true) (timers c)).

(** The calls of [connect] in a run on which [osc.open] did not throw. *)
Definition is_successful_connect (e : event) : bool :=
  match e with Connect None => true | _ => false end.
Definition successful_connects (es : list event) : nat :=
  length (filter (λ e, is_successful_connect e = true) es).

(** What every run from a new client keeps true of time: no queued timer
    is overdue, a keep-alive is an interval of 9000 ms, a timeout is a
    one-shot timer that is due within 1000 ms, the promise of a stored
    callback is pending, and the timeout of that call is still queued. *)
Record timely (c : OSCClient) : Prop := {
  timely_due : ∀ t, t ∈ timers c → clock c ≤ due t;
  timely_kind : ∀ t, t ∈ timers c →
      match callback t with
      | KeepAlive => period t = Some 9000
      | TimeoutCheck _ _ => period t = None ∧ due t ≤ clock c + 1000
      end;
  timely_entry : ∀ a p, responseCallbacks c !! a = Some p →
      promises c !! p = Some Pending
      ∧ ∃ t, t ∈ timers c ∧ callback t = TimeoutCheck a p }.

(** * Basic facts *)

Section Settle.
Variables (pid : nat) (s : settlement) (c : OSCClient).

Lemma settle_responseCallbacks :
  responseCallbacks (settle pid s c) = responseCallbacks c.
Proof. unfold settle. by destruct (promises c !! pid) as [[]|]. Qed.

Lemma settle_outbox : outbox (settle pid s c) = outbox c.
Proof. unfold settle. by destruct (promises c !! pid) as [[]|]. Qed.

Lemma settle_timers : timers (settle pid s c) = timers c.
Proof. unfold settle. by destruct (promises c !! pid) as [[]|]. Qed.

Lemma settle_clock : clock (settle pid s c) = clock c.
Proof. unfold settle. by destruct (promises c !! pid) as [[]|]. Qed.

Lemma settle_isConnected : isConnected (settle pid s c) = isConnected c.
Proof. unfold settle. by destruct (promises c !! pid) as [[]|]. Qed.

Lemma settle_length : length (promises (settle pid s c)) = length (promises c).
Proof.
  unfold settle. destruct (promises c !! pid) as [[]|]; simpl; auto.
  by rewrite length_insert.
Qed.

Lemma settle_pending :
  promises c !! pid = Some Pending → promises (settle pid s c) !! pid = Some s.
Proof.
  intros Hp. unfold settle. rewrite Hp. simpl.
  apply list_lookup_insert_eq. by eapply lookup_lt_Some.
Qed.

Lemma settle_other (q : nat) :
  q ≠ pid → promises (settle pid s c) !! q = promises c !! q.
Proof.
  intros Hq. unfold settle. destruct (promises c !! pid) as [[]|]; simpl; auto.
  by apply list_lookup_insert_ne.
Qed.

End Settle.

(** [sendCommand] never throws. *)
Lemma sendCommand_returns address args c :
  (sendCommand address args c).1 = Returned.
Proof. unfold sendCommand. by destruct (isConnected c). Qed.

Lemma sendCommand_responseCallbacks address args c :
  responseCallbacks (sendCommand address args c).2 = responseCallbacks c.
Proof. unfold sendCommand. by destruct (isConnected c). Qed.

Lemma sendCommand_promises address args c :
  promises (sendCommand address args c).2 = promises c.
Proof. unfold sendCommand. by destruct (isConnected c). Qed.

Lemma sendCommand_timers address args c :
  timers (sendCommand address args c).2 = timers c.
Proof. unfold sendCommand. by destruct (isConnected c). Qed.

Lemma sendCommand_clock address args c :
  clock (sendCommand address args c).2 = clock c.
Proof. unfold sendCommand. by destruct (isConnected c). Qed.

Lemma sendCommand_isConnected address args c :
  isConnected (sendCommand address args c).2 = isConnected c.
Proof. unfold sendCommand. by destruct (isConnected c) eqn:E. Qed.

Lemma sendCommand_disconnected address args c :
  isConnected c = false →
  sendCommand address args c = (Returned, console_error "OSC not connected" c).
Proof. unfold sendCommand. by intros ->. Qed.

(** The state [sendAndReceive] leaves, field by field. *)
Lemma sendAndReceive_pid address args c :
  (sendAndReceive address args c).1 = length (promises c).
Proof. reflexivity. Qed.

Lemma sendAndReceive_responseCallbacks address args c :
  responseCallbacks (sendAndReceive address args c).2
  = <[address := length (promises c)]> (responseCallbacks c).
Proof.
  unfold sendAndReceive, exec; simpl. unfold sendCommand; simpl.
  by destruct (isConnected c).
Qed.

Lemma sendAndReceive_promises address args c :
  promises (sendAndReceive address args c).2 = promises c ++ [Pending].
Proof.
  unfold sendAndReceive, exec; simpl. unfold sendCommand; simpl.
  by destruct (isConnected c).
Qed.

Lemma sendAndReceive_timers address args c :
  timers (sendAndReceive address args c).2
  = timers c ++ [mkTimer (clock c + 1000) None
                   (TimeoutCheck address (length (promises c)))].
Proof.
  unfold sendAndReceive, exec; simpl. unfold sendCommand; simpl.
  by destruct (isConnected c).
Qed.

Lemma sendAndReceive_registered address args c :
  registered address (sendAndReceive address args c).1
    (sendAndReceive address args c).2.
Proof.
  split.
  - rewrite sendAndReceive_responseCallbacks. apply lookup_insert_eq.
  - rewrite sendAndReceive_promises, sendAndReceive_pid.
    by rewrite lookup_app_r, Nat.sub_diag.
Qed.

(** What the dispatcher does to a registered call. *)
Lemma onMessage_match a pid c m v vs :
  registered a pid c →
  address m = a → args m = v :: vs →
  promises (onMessage m c) !! pid = Some (Fulfilled v)
  ∧ responseCallbacks (onMessage m c) !! a = None.
Proof.
  intros [Hcb Hp] Ha Hargs. unfold onMessage. rewrite Ha, Hcb, Hargs. simpl.
  split.
  - by apply settle_pending.
  - apply lookup_delete_eq.
Qed.

Lemma onMessage_other a pid c m :
  wf c → registered a pid c → address m ≠ a →
  registered a pid (onMessage m c).
Proof.
  intros Hwf [Hcb Hp] Ha. unfold onMessage.
  destruct (responseCallbacks c !! address m) as [q|] eqn:Hq; [|done].
  destruct (args m) as [|v vs]; [done|]. split; simpl.
  - rewrite settle_responseCallbacks. by rewrite lookup_delete_ne.
  - rewrite settle_other; [done|]. intros ->.
    apply Ha. by eapply (wf_inj c Hwf).
Qed.

Lemma onMessage_empty m c : args m = [] → onMessage m c = c.
Proof.
  intros Hargs. unfold onMessage. rewrite Hargs.
  by destruct (responseCallbacks c !! address m).
Qed.

Lemma onMessage_unregistered m c :
  responseCallbacks c !! address m = None → onMessage m c = c.
Proof. intros Hcb. unfold onMessage. by rewrite Hcb. Qed.

(** ** The timer queue *)

Lemma next_timer_None ts : next_timer ts = None → ts = [].
Proof.
  destruct ts as [|t ts]; [done|]. simpl.
  destruct (next_timer ts) as [[u rest]|]; [|done].
  by destruct (due t <=? due u).
Qed.

Lemma next_timer_perm ts t rest :
  next_timer ts = Some (t, rest) → ts ≡ₚ t :: rest.
Proof.
  revert t rest. induction ts as [|u ts IH]; intros t rest; [done|]. simpl.
  destruct (next_timer ts) as [[w rest']|] eqn:Hn.
  - destruct (due u <=? due w); intros [= <- <-]; [done|].
    rewrite (IH _ _ eq_refl). apply Permutation_swap.
  - intros [= <- <-]. by rewrite (next_timer_None _ Hn).
Qed.

Lemma next_timer_least ts t rest u :
  next_timer ts = Some (t, rest) → u ∈ ts → due t ≤ due u.
Proof.
  revert t rest. induction ts as [|w ts IH]; intros t rest; [done|]. simpl.
  destruct (next_timer ts) as [[x rest']|] eqn:Hn.
  - destruct (due w <=? due x) eqn:Hle; intros [= <- <-] Hu.
    + apply Z.leb_le in Hle. apply elem_of_cons in Hu as [->|Hu]; [lia|].
      specialize (IH _ _ eq_refl Hu). lia.
    + apply Z.leb_gt in Hle. apply elem_of_cons in Hu as [->|Hu]; [lia|].
      by apply (IH _ _ eq_refl).
  - intros [= <- <-] Hu. apply next_timer_None in Hn as ->.
    apply elem_of_cons in Hu as [->|Hu]; [lia|]. by apply elem_of_nil in Hu.
Qed.

Lemma next_timer_singleton t : next_timer [t] = Some (t, []).
Proof. reflexivity. Qed.

(** ** The invariant *)

Lemma wf_constructor h p : wf (constructor h p).
Proof.
  split; simpl.
  - intros a q Hq. by rewrite lookup_empty in Hq.
  - intros a b q Hq. by rewrite lookup_empty in Hq.
  - intros t a q Ht. by apply elem_of_nil in Ht.
Qed.

(** The invariant survives whatever only removes callbacks, keeps every
    promise, and queues nothing but keep-alives and timers that were
    queued before. *)
Lemma wf_shrink c c' :
  (∀ a p, responseCallbacks c' !! a = Some p → responseCallbacks c !! a = Some p) →
  (length (promises c) ≤ length (promises c'))%nat →
  (∀ t, t ∈ timers c' →
        callback t = KeepAlive ∨ ∃ u, u ∈ timers c ∧ callback u = callback t) →
  wf c → wf c'.
Proof.
  intros Hcb Hlen Htm [Hb Hi Ht]. split.
  - intros a p Hp. apply Hcb, Hb in Hp. lia.
  - intros a b p Ha Hb'. eapply Hi; eauto.
  - intros t a q Hin Hq. destruct (Htm t Hin) as [Hk|(u & Hu & Hcu)].
    + congruence.
    + rewrite <- Hcu in Hq. destruct (Ht u a q Hu Hq) as [Hlt Hone].
      split; [lia|]. intros b Hb'. apply Hone. by apply Hcb.
Qed.

Lemma wf_sendCommand a args c : wf c → wf (sendCommand a args c).2.
Proof.
  apply wf_shrink.
  - intros b p. by rewrite sendCommand_responseCallbacks.
  - by rewrite sendCommand_promises.
  - intros t. rewrite sendCommand_timers. eauto.
Qed.

Lemma wf_connect err c : wf c → wf (connect err c).2.
Proof.
  destruct err as [e|]; [done|]. apply wf_shrink; simpl; [done..|].
  intros t [Ht| ->%list_elem_of_singleton]%elem_of_app; eauto.
Qed.

Lemma wf_close c : wf c → wf (close c).
Proof. apply wf_shrink; simpl; eauto. Qed.

Lemma wf_onMessage m c : wf c → wf (onMessage m c).
Proof.
  unfold onMessage.
  destruct (responseCallbacks c !! address m) as [q|]; [|done].
  destruct (args m) as [|v vs]; [done|].
  apply wf_shrink; simpl.
  - intros b p. rewrite settle_responseCallbacks.
    intros [_ Hp]%lookup_delete_Some. done.
  - by rewrite settle_length.
  - intros t. rewrite settle_timers. eauto.
Qed.

Lemma wf_run_callback cb c :
  wf c → wf (run_callback cb c).
Proof.
  destruct cb as [a q|]; simpl; [|apply wf_sendCommand].
  destruct (decide _); [|done].
  apply wf_shrink; simpl.
  - intros b p. rewrite settle_responseCallbacks. simpl.
    intros [_ Hp]%lookup_delete_Some. done.
  - by rewrite settle_length.
  - intros t. rewrite settle_timers. eauto.
Qed.

Lemma wf_tick c c' : wf c → tick c = Some c' → wf c'.
Proof.
  unfold tick. intros Hwf.
  destruct (next_timer (timers c)) as [[t rest]|] eqn:Hn; [|done].
  intros [= <-]. apply wf_run_callback. revert Hwf. apply wf_shrink; simpl; eauto.
  intros u Hu. right. apply next_timer_perm in Hn.
  apply elem_of_app in Hu as [Hu|Hu].
  - exists u. split; [|done]. rewrite Hn. by apply elem_of_cons; right.
  - exists t. split; [rewrite Hn; by apply elem_of_cons; left|].
    unfold rearm in Hu. destruct (period t); [|by apply elem_of_nil in Hu].
    by apply list_elem_of_singleton in Hu as ->.
Qed.

Lemma wf_sleep ms c c' : wf c → sleep ms c = Some c' → wf c'.
Proof.
  unfold sleep. destruct (decide _); [|done]. intros Hwf [= <-].
  revert Hwf. apply wf_shrink; simpl; eauto.
Qed.

Lemma wf_sendAndReceive a args c : wf c → wf (sendAndReceive a args c).2.
Proof.
  intros [Hb Hi Ht]. split.
  - intros b p. rewrite sendAndReceive_responseCallbacks, sendAndReceive_promises.
    rewrite length_app; simpl. intros [[_ <-]|[_ Hp]]%lookup_insert_Some; [lia|].
    apply Hb in Hp. lia.
  - intros b b' p. rewrite sendAndReceive_responseCallbacks.
    intros [[<- <-]|[Hne Hp]]%lookup_insert_Some
           [[<- Heq]|[Hne' Hp']]%lookup_insert_Some; try done.
    + apply Hb in Hp'. lia.
    + apply Hb in Hp. lia.
    + by eapply Hi.
  - intros t b q. rewrite sendAndReceive_timers, sendAndReceive_promises,
      sendAndReceive_responseCallbacks, length_app. simpl.
    intros [Hin| ->%list_elem_of_singleton]%elem_of_app Hcb.
    + destruct (Ht t b q Hin Hcb) as [Hlt Hone]. split; [lia|].
      intros b' [[_ Heq]|[_ Hp]]%lookup_insert_Some; [lia|]. by apply Hone.
    + simpl in Hcb. injection Hcb as <- <-. split; [lia|].
      intros b' [[Heq _]|[_ Hp]]%lookup_insert_Some; [done|].
      apply Hb in Hp. lia.
Qed.

Lemma wf_step e c c' : wf c → step e c = Some c' → wf c'.
Proof.
  intros Hwf. destruct e; simpl.
  - intros [= <-]. by apply wf_connect.
  - intros [= <-]. by apply wf_sendAndReceive.
  - intros [= <-]. by apply wf_sendCommand.
  - intros [= <-]. by apply wf_onMessage.
  - by apply wf_tick.
  - by apply wf_sleep.
  - intros [= <-]. by apply wf_close.
Qed.

Lemma wf_run es c c' : wf c → run es c = Some c' → wf c'.
Proof.
  revert c. induction es as [|e es IH]; intros c Hwf; simpl.
  - by intros [= <-].
  - destruct (step e c) as [c1|] eqn:Hs; [|done]. simpl.
    apply IH. by eapply wf_step.
Qed.

(** ** A pending call stays pending until something disturbs it *)

Lemma registered_same a pid c c' :
  responseCallbacks c' !! a = responseCallbacks c !! a →
  promises c' !! pid = promises c !! pid →
  registered a pid c → registered a pid c'.
Proof. intros Hcb Hp [H1 H2]. split; congruence. Qed.

Lemma registered_run_callback a pid c cb :
  registered a pid c →
  (∀ a' q, cb = TimeoutCheck a' q → a' ≠ a ∧ q ≠ pid) →
  registered a pid (run_callback cb c).
Proof.
  intros Hreg Hcb. destruct cb as [a' q|]; simpl.
  - destruct (decide _); [|done].
    destruct (Hcb a' q eq_refl) as [Hne Hq].
    revert Hreg. apply registered_same.
    + rewrite settle_responseCallbacks. simpl. by apply lookup_delete_ne.
    + by rewrite settle_other.
  - revert Hreg. apply registered_same.
    + by rewrite sendCommand_responseCallbacks.
    + by rewrite sendCommand_promises.
Qed.

Lemma registered_step a pid e c c' :
  wf c → registered a pid c → disturbs a c e = false →
  step e c = Some c' → registered a pid c'.
Proof.
  intros Hwf Hreg Hd.
  destruct e as [err|a' args'|a' args'|m| |ms|]; cbn [step disturbs] in *.
  - intros [= <-]. by destruct err.
  - intros <-%(inj Some). apply bool_decide_eq_false in Hd.
    destruct Hreg as [H1 H2]. split.
    + rewrite sendAndReceive_responseCallbacks. by rewrite lookup_insert_ne.
    + rewrite sendAndReceive_promises. rewrite lookup_app_l; [done|].
      by eapply lookup_lt_Some.
  - intros <-%(inj Some). revert Hreg. apply registered_same.
    + by rewrite sendCommand_responseCallbacks.
    + by rewrite sendCommand_promises.
  - intros [= <-]. apply bool_decide_eq_false in Hd.
    destruct (decide (address m = a)) as [Ha|Ha].
    + rewrite onMessage_empty; [done|].
      destruct (args m); [done|]. exfalso. apply Hd. by split.
    + by apply onMessage_other.
  - unfold tick. destruct (next_timer (timers c)) as [[t rest]|] eqn:Hn; [|done].
    intros [= <-]. pose proof (next_timer_perm _ _ _ Hn) as Hperm.
    apply registered_run_callback; [done|].
    intros a' q Hcb. rewrite Hcb in Hd. apply bool_decide_eq_false in Hd.
    split; [done|]. intros ->.
    assert (t ∈ timers c) as Hin by (rewrite Hperm; by apply elem_of_cons; left).
    destruct (wf_timer c Hwf t a' pid Hin Hcb) as [_ Hone].
    destruct Hreg as [Hreg _]. apply Hd. symmetry. by apply Hone.
  - unfold sleep. destruct (decide _); [|done]. by intros [= <-].
  - by intros [= <-].
Qed.

Lemma registered_run a pid es c c' :
  wf c → registered a pid c → undisturbed a es c = true →
  run es c = Some c' → registered a pid c'.
Proof.
  revert c. induction es as [|e es IH]; intros c Hwf Hreg; simpl.
  - by intros _ [= <-].
  - intros [Hd Hu]%andb_true_iff. apply negb_true_iff in Hd.
    destruct (step e c) as [c1|] eqn:Hs; [|done]. simpl.
    apply IH; [by eapply wf_step|by eapply registered_step|done].
Qed.

(** ** Timeouts *)

(** The timeout of a call fires while some callback is stored for its
    address: the promise of the call is rejected with the timeout error,
    the stored callback is gone, and a reply that comes later changes
    nothing. *)
Lemma tick_timeout a pid d rest c :
  next_timer (timers c) = Some (mkTimer d None (TimeoutCheck a pid), rest) →
  promises c !! pid = Some Pending →
  is_Some (responseCallbacks c !! a) →
  ∃ c', tick c = Some c'
        ∧ clock c' = Z.max (clock c) d
        ∧ promises c' !! pid = Some (Rejected (timeout_message a))
        ∧ responseCallbacks c' !! a = None
        ∧ ∀ m, address m = a → onMessage m c' = c'.
Proof.
  intros Hn Hp Hcb. unfold tick. rewrite Hn. eexists. split; [done|].
  cbn [run_callback callback]. simpl.
  rewrite decide_True by done.
  rewrite settle_clock, settle_responseCallbacks. simpl.
  split; [done|]. split; [by apply settle_pending|].
  split; [apply lookup_delete_eq|].
  intros m Hm. apply onMessage_unregistered.
  rewrite settle_responseCallbacks, Hm. simpl. apply lookup_delete_eq.
Qed.

Lemma wf_fresh : wf fresh.
Proof. apply wf_constructor. Qed.

Lemma wf_after es c : wf c → wf (after es c).
Proof.
  intros Hwf. unfold after. destruct (run es c) as [c'|] eqn:Hr; [|done].
  by eapply wf_run.
Qed.

Lemma wf_connected : wf connected.
Proof. apply wf_after, wf_fresh. Qed.

(** * Properties of the client *)




(** C2, as stated, fails.  A second call on ["/info"] is issued 500 ms
    after a first one that is still unanswered.  No reply ever comes.
    The timer of the first call fires at 1000 ms, finds the callback of
    the second call under the address, removes it and rejects the first
    promise; the timer of the second call fires at 1500 ms, finds no
    callback and does nothing.  At 9000 ms the second call is still
    pending and only the keep-alive is queued. *)
Lemma timeout_counterexample :
  let call := sendAndReceive "/info" [] half_waited in
  let c := after [Tick; Tick; Tick] call.2 in
  wf half_waited
  ∧ clock half_waited = 500
  ∧ run [Tick; Tick; Tick] call.2 = Some c
  ∧ clock half_waited + 1000 < clock c
  ∧ promises c = [Rejected "Timeout waiting for response from /info"; Pending]
  ∧ promises c !! call.1 = Some Pending
  ∧ Forall (λ t, callback t = KeepAlive) (timers c).
Proof.
  intros call c. split; [apply wf_after, wf_connected|].
  do 5 (split; [vm_compute; reflexivity|]). vm_compute. by repeat constructor.
Qed.

(** The same loss without any overlap.  A first call on ["/info"] was
    answered after 100 ms; a second one is issued at 500 ms.  The timer
    of the first call is still queued: at 1000 ms it finds the callback
    of the second call and removes it.  A reply that comes then is
    dropped, and the timer of the second call, at 1500 ms, finds
    nothing: the second call stays pending. *)
Lemma stale_timeout_example :
  let call := sendAndReceive "/info" [] answered in
  let c := after [Tick; Inbound (mkMessage "/info" [VStr "X32"]); Tick] call.2 in
  promises answered = [Fulfilled (VStr "X32")]
  ∧ responseCallbacks answered !! "/info" = None
  ∧ clock c = 1500
  ∧ promises c = [Fulfilled (VStr "X32"); Pending]
  ∧ Forall (λ t, callback t = KeepAlive) (timers c).
Proof.
  intros call c. split; [vm_compute; reflexivity|].
  split; [vm_compute; reflexivity|]. split; [vm_compute; reflexivity|].
  split; [vm_compute; reflexivity|]. vm_compute. by repeat constructor.
Qed.

(** C2, amended.  The timeout of a call on [a] is armed for 1000 ms
    after the call.  When it fires while the promise of the call is
    pending and a callback is stored for [a] (which is the case after an
    undisturbed run), the call fails with the error that names [a], the
    callback stored for [a] is removed, and a reply for [a] that arrives
    afterwards leaves the client as it is. *)
Theorem timeout_rejects
    (a : string) (args0 : list value) (c0 c : OSCClient)
    (es : list event) (rest : list timer) :
  let pid := (sendAndReceive a args0 c0).1 in
  let t := mkTimer (clock c0 + 1000) None (TimeoutCheck a pid) in
  wf c0 →
  run es (sendAndReceive a args0 c0).2 = Some c →
  t ∈ timers (sendAndReceive a args0 c0).2
  ∧ (undisturbed a es (sendAndReceive a args0 c0).2 = true → registered a pid c)
  ∧ (next_timer (timers c) = Some (t, rest) →
     promises c !! pid = Some Pending →
     is_Some (responseCallbacks c !! a) →
     ∃ c', tick c = Some c'
           ∧ clock c0 + 1000 ≤ clock c'
           ∧ promises c' !! pid = Some (Rejected (timeout_message a))
           ∧ responseCallbacks c' !! a = None
           ∧ ∀ m, address m = a → onMessage m c' = c').
Proof.
  intros pid t Hwf Hrun. split; [|split].
  - rewrite sendAndReceive_timers. apply elem_of_app. right.
    by apply list_elem_of_singleton.
  - intros Hu.
    apply (registered_run a pid es (sendAndReceive a args0 c0).2 c);
      [by apply wf_sendAndReceive|apply sendAndReceive_registered|done..].
  - intros Hn Hp Hcb.
    destruct (tick_timeout a pid _ rest c Hn Hp Hcb) as (c' & Ht & Hclk & Hrest).
    exists c'. split; [done|]. split; [lia|done].
Qed.

Lemma timeout_rejects_witness :
  let c := after [Issue "/info" []; Sleep 1000] connected in
  wf connected
  ∧ run [Sleep 1000] (sendAndReceive "/info" [] connected).2 = Some c
  ∧ next_timer (timers c)
    = Some (mkTimer 1000 None (TimeoutCheck "/info" 0),
            [mkTimer 9000 (Some 9000) KeepAlive])
  ∧ registered "/info" 0 c
  ∧ ∃ c', tick c = Some c'
          ∧ 1000 ≤ clock c'
          ∧ promises c' !! 0%nat
            = Some (Rejected "Timeout waiting for response from /info")
          ∧ responseCallbacks c' !! "/info" = None.
Proof.
  intros c.
  assert (run [Sleep 1000] (sendAndReceive "/info" [] connected).2 = Some c)
    as Hrun by (vm_compute; reflexivity).
  assert (next_timer (timers c)
          = Some (mkTimer 1000 None (TimeoutCheck "/info" 0),
                  [mkTimer 9000 (Some 9000) KeepAlive])) as Hn
    by (vm_compute; reflexivity).
  destruct (timeout_rejects "/info" [] connected c [Sleep 1000]
              [mkTimer 9000 (Some 9000) KeepAlive] wf_connected Hrun)
    as (_ & Hreg & Hfire).
  specialize (Hreg eq_refl).
  destruct (Hfire Hn (proj2 Hreg) (ex_intro _ _ (proj1 Hreg)))
    as (c' & Ht & Hclk & Hp & Hcb & _).
  refine (conj wf_connected (conj Hrun (conj Hn (conj Hreg _)))).
  exists c'. exact (conj Ht (conj Hclk (conj Hp Hcb))).
Defined.




(** ** Entries of the callback map *)

Lemma filter_key_NoDup (a : string) (l : list (string * nat)) :
  NoDup l.*1 → (length (filter (λ kv, kv.1 = a) l) ≤ 1)%nat.
Proof.
  induction l as [|[k v] l IH]; simpl; [lia|].
  intros [Hk Hnd]%NoDup_cons. specialize (IH Hnd).
  rewrite filter_cons. simpl. destruct (decide (k = a)) as [->|Hne]; [|done].
  simpl. destruct (filter (λ kv, kv.1 = a) l) as [|[k' v'] l'] eqn:Hf; [simpl; lia|].
  exfalso. apply Hk.
  assert ((k', v') ∈ filter (λ kv, kv.1 = a) l) as Hin
    by (rewrite Hf; apply elem_of_cons; by left).
  apply list_elem_of_filter in Hin as [Heq Hin]. simpl in Heq. subst k'.
  apply list_elem_of_fmap. by exists (a, v').
Qed.

Lemma pending_calls_on_length a c : (length (pending_calls_on a c) ≤ 1)%nat.
Proof.
  unfold pending_calls_on. rewrite length_fmap.
  apply filter_key_NoDup, NoDup_fst_map_to_list.
Qed.

Lemma pending_calls_on_lookup a p c :
  responseCallbacks c !! a = Some p → pending_calls_on a c = [p].
Proof.
  intros Hp. pose proof (pending_calls_on_length a c) as Hlen.
  assert (p ∈ pending_calls_on a c) as Hin.
  { unfold pending_calls_on. apply list_elem_of_fmap. exists (a, p).
    split; [done|]. apply list_elem_of_filter. split; [done|].
    by apply elem_of_map_to_list. }
  destruct (pending_calls_on a c) as [|q [|q' l]]; simpl in Hlen.
  - by apply elem_of_nil in Hin.
  - by apply list_elem_of_singleton in Hin as ->.
  - lia.
Qed.

(** C3.  The callback map holds at most one entry per address, in every
    state.  A second call on [a] while a first one is outstanding
    replaces the callback of the first: the map is what it would be had
    the first call never registered, the first promise is stored under
    no address and stays unsettled when the reply comes, and the reply
    goes to the second call. *)
Theorem second_call_overwrites
    (a : string) (args1 args2 : list value) (c : OSCClient) :
  let call1 := sendAndReceive a args1 c in
  let call2 := sendAndReceive a args2 call1.2 in
  wf c →
  (∀ (c' : OSCClient) (b : string), (length (pending_calls_on b c') ≤ 1)%nat)
  ∧ pending_calls_on a call1.2 = [call1.1]
  ∧ pending_calls_on a call2.2 = [call2.1]
  ∧ call1.1 ≠ call2.1
  ∧ responseCallbacks call2.2 = <[a := call2.1]> (responseCallbacks c)
  ∧ (∀ b, responseCallbacks call2.2 !! b ≠ Some call1.1)
  ∧ promises call2.2 !! call1.1 = Some Pending
  ∧ ∀ m v vs, address m = a → args m = v :: vs →
      promises (onMessage m call2.2) !! call2.1 = Some (Fulfilled v)
      ∧ promises (onMessage m call2.2) !! call1.1 = Some Pending.
Proof.
  intros call1 call2 Hwf.
  pose proof (sendAndReceive_registered a args1 c) as Hreg1.
  pose proof (sendAndReceive_registered a args2 call1.2) as Hreg2.
  fold call1 in Hreg1. fold call2 in Hreg2.
  assert (call1.1 = length (promises c)) as E1 by done.
  assert (call2.1 = S (length (promises c))) as E2.
  { unfold call2. rewrite sendAndReceive_pid. unfold call1.
    rewrite sendAndReceive_promises, length_app. simpl. lia. }
  assert (responseCallbacks call2.2 = <[a := call2.1]> (responseCallbacks c)) as Hmap.
  { unfold call2 at 1. rewrite sendAndReceive_responseCallbacks.
    unfold call1 at 2. rewrite sendAndReceive_responseCallbacks.
    rewrite insert_insert_eq. by rewrite <- (sendAndReceive_pid a args2 call1.2). }
  assert (promises call2.2 !! call1.1 = Some Pending) as Hp1.
  { unfold call2. rewrite sendAndReceive_promises.
    rewrite lookup_app_l; [apply Hreg1|]. eapply lookup_lt_Some, Hreg1. }
  split; [intros c' b; apply pending_calls_on_length|].
  split; [apply pending_calls_on_lookup, Hreg1|].
  split; [apply pending_calls_on_lookup, Hreg2|].
  split; [lia|]. split; [done|].
  split.
  - intros b. rewrite Hmap. intros [[_ Heq]|[_ Hp]]%lookup_insert_Some; [lia|].
    apply (wf_bound c Hwf) in Hp. lia.
  - split; [done|]. intros m v vs Ha Hargs.
    destruct (onMessage_match a call2.1 call2.2 m v vs Hreg2 Ha Hargs) as [Hres _].
    split; [done|]. unfold onMessage. rewrite Ha. destruct Hreg2 as [-> _].
    rewrite Hargs. simpl. rewrite settle_other; [done|].
    change (call1.1 ≠ call2.1). rewrite E1, E2. lia.
Qed.

Lemma second_call_overwrites_witness :
  let call1 := sendAndReceive "/info" [] connected in
  let call2 := sendAndReceive "/info" [] call1.2 in
  wf connected
  ∧ pending_calls_on "/info" call1.2 = [0%nat]
  ∧ pending_calls_on "/info" call2.2 = [1%nat]
  ∧ promises (onMessage (mkMessage "/info" [VStr "X32"]) call2.2)
    = [Pending; Fulfilled (VStr "X32")].
Proof.
  intros call1 call2.
  destruct (second_call_overwrites "/info" [] [] connected wf_connected)
    as (_ & H1 & H2 & _).
  refine (conj wf_connected (conj H1 (conj H2 _))).
  vm_compute; reflexivity.
Defined.

(** ** The keep-alive timer on its own *)

Lemma run_callback_KeepAlive_outbox c :
  outbox (run_callback KeepAlive c)
  = outbox c ++ (if isConnected c then [mkMessage "/xremote" []] else []).
Proof.
  simpl. unfold sendCommand. destruct (isConnected c); simpl; [done|].
  by rewrite app_nil_r.
Qed.

(** A client whose only timer is the keep-alive, due 9000 ms from now:
    [n] timer turns are [n] firings, 9000 ms apart, each of which sends
    one ["/xremote"] if the client is connected and nothing otherwise. *)
Lemma ticks_keepalive n c :
  timers c = [mkTimer (clock c + 9000) (Some 9000) KeepAlive] →
  ∃ cn, ticks n c = Some cn
        ∧ timers cn = [mkTimer (clock cn + 9000) (Some 9000) KeepAlive]
        ∧ clock cn = clock c + 9000 * Z.of_nat n
        ∧ isConnected cn = isConnected c
        ∧ outbox cn
          = outbox c ++ (if isConnected c
                         then replicate n (mkMessage "/xremote" []) else []).
Proof.
  revert c. induction n as [|n IH]; intros c Htm.
  - exists c. simpl. split; [done|]. split; [done|]. split; [lia|].
    split; [done|]. destruct (isConnected c); by rewrite app_nil_r.
  - cbn [ticks]. unfold tick. rewrite Htm, next_timer_singleton.
    cbn [mbind option_bind callback rearm period due app].
    set (c' := run_callback KeepAlive _).
    assert (clock c' = clock c + 9000) as Hclk.
    { unfold c'. simpl. rewrite sendCommand_clock. simpl. lia. }
    assert (timers c' = [mkTimer (clock c' + 9000) (Some 9000) KeepAlive]) as Htm'.
    { rewrite Hclk. unfold c'. simpl. by rewrite sendCommand_timers. }
    assert (isConnected c' = isConnected c) as Hconn.
    { unfold c'. simpl. by rewrite sendCommand_isConnected. }
    assert (outbox c' = outbox c ++ (if isConnected c
                                     then [mkMessage "/xremote" []] else [])) as Hout.
    { unfold c'. by rewrite run_callback_KeepAlive_outbox. }
    destruct (IH c' Htm') as (cn & Hticks & Htmn & Hclkn & Hconnn & Houtn).
    exists cn. split; [done|]. split; [done|]. split; [lia|].
    split; [congruence|]. rewrite Houtn, Hout, Hconn.
    destruct (isConnected c); simpl; [|by rewrite !app_nil_r].
    by rewrite <- app_assoc.
Qed.

(** ** The keep-alive among other activity *)

Lemma sent_on_snoc a m c :
  length (filter (λ m, address m = a) (outbox c ++ [m]))
  = (sent_on a c + (if decide (address m = a) then 1 else 0))%nat.
Proof.
  unfold sent_on. rewrite filter_app, length_app. f_equal.
  rewrite filter_cons, filter_nil. by destruct (decide (address m = a)).
Qed.

Lemma sent_on_sendCommand b a args0 c :
  sent_on b (sendCommand a args0 c).2
  = (sent_on b c + (if isConnected c then if decide (a = b) then 1 else 0 else 0))%nat.
Proof.
  unfold sendCommand. destruct (isConnected c); simpl; [|unfold sent_on; simpl; lia].
  unfold sent_on at 1. simpl. by rewrite sent_on_snoc.
Qed.

Lemma sendAndReceive_outbox a args0 c :
  outbox (sendAndReceive a args0 c).2 = outbox (sendCommand a args0 c).2.
Proof.
  unfold sendAndReceive, exec. simpl. unfold sendCommand. simpl.
  by destruct (isConnected c).
Qed.

Lemma sendAndReceive_isConnected a args0 c :
  isConnected (sendAndReceive a args0 c).2 = isConnected c.
Proof.
  unfold sendAndReceive, exec. simpl. unfold sendCommand. simpl.
  by destruct (isConnected c) eqn:E.
Qed.

Lemma sendAndReceive_clock a args0 c :
  clock (sendAndReceive a args0 c).2 = clock c.
Proof.
  unfold sendAndReceive, exec. simpl. unfold sendCommand. simpl.
  by destruct (isConnected c).
Qed.

Lemma onMessage_outbox m c : outbox (onMessage m c) = outbox c.
Proof.
  unfold onMessage. destruct (responseCallbacks c !! address m); [|done].
  destruct (args m); [done|]. simpl. apply settle_outbox.
Qed.

Lemma onMessage_isConnected m c : isConnected (onMessage m c) = isConnected c.
Proof.
  unfold onMessage. destruct (responseCallbacks c !! address m); [|done].
  destruct (args m); [done|]. simpl. apply settle_isConnected.
Qed.

Lemma onMessage_timers m c : timers (onMessage m c) = timers c.
Proof.
  unfold onMessage. destruct (responseCallbacks c !! address m); [|done].
  destruct (args m); [done|]. simpl. apply settle_timers.
Qed.

Lemma onMessage_clock m c : clock (onMessage m c) = clock c.
Proof.
  unfold onMessage. destruct (responseCallbacks c !! address m); [|done].
  destruct (args m); [done|]. simpl. apply settle_clock.
Qed.

Lemma run_callback_isConnected cb c :
  isConnected (run_callback cb c) = isConnected c.
Proof.
  destruct cb as [a q|]; simpl; [|apply sendCommand_isConnected].
  destruct (decide _); [|done]. by rewrite settle_isConnected.
Qed.

Lemma run_callback_timers cb c : timers (run_callback cb c) = timers c.
Proof.
  destruct cb as [a q|]; simpl; [|apply sendCommand_timers].
  destruct (decide _); [|done]. by rewrite settle_timers.
Qed.

Lemma run_callback_clock cb c : clock (run_callback cb c) = clock c.
Proof.
  destruct cb as [a q|]; simpl; [|apply sendCommand_clock].
  destruct (decide _); [|done]. by rewrite settle_clock.
Qed.

Lemma run_callback_TimeoutCheck_outbox a q c :
  outbox (run_callback (TimeoutCheck a q) c) = outbox c.
Proof. simpl. destruct (decide _); [|done]. by rewrite settle_outbox. Qed.

(** Once the client is not connected, nothing but [connect] makes it
    send again. *)
Lemma step_disconnected e c c' :
  not_connect e → isConnected c = false → step e c = Some c' →
  isConnected c' = false ∧ outbox c' = outbox c.
Proof.
  intros He Hc. destruct e as [err|a args0|a args0|m| |ms|]; cbn [step].
  - done.
  - intros <-%(inj Some). rewrite sendAndReceive_isConnected, sendAndReceive_outbox.
    by rewrite sendCommand_disconnected.
  - intros <-%(inj Some). by rewrite sendCommand_disconnected.
  - intros <-%(inj Some). by rewrite onMessage_isConnected, onMessage_outbox.
  - unfold tick. destruct (next_timer (timers c)) as [[t rest]|]; [|done].
    intros <-%(inj Some). rewrite run_callback_isConnected. split; [done|].
    destruct (callback t) as [a q|].
    + by rewrite run_callback_TimeoutCheck_outbox.
    + rewrite run_callback_KeepAlive_outbox. simpl. rewrite Hc. apply app_nil_r.
  - unfold sleep. destruct (decide _); [|done]. by intros <-%(inj Some).
  - by intros <-%(inj Some).
Qed.

Lemma run_disconnected es c c' :
  Forall not_connect es → isConnected c = false → run es c = Some c' →
  isConnected c' = false ∧ outbox c' = outbox c.
Proof.
  intros Hes. revert c. induction Hes as [|e es He Hes IH]; intros c Hc; simpl.
  - by intros [= <-].
  - destruct (step e c) as [c1|] eqn:Hs; [|done]. simpl.
    destruct (step_disconnected e c c1 He Hc Hs) as [Hc1 Ho1].
    intros Hrun. destruct (IH c1 Hc1 Hrun) as [Hc' Ho']. split; congruence.
Qed.

Lemma filter_keepalive_none (l : list timer) :
  Forall (λ t, is_keepalive t = false) l →
  filter (λ t, is_keepalive t = true) l = [].
Proof.
  induction 1 as [|t l Ht _ IH]; [done|].
  rewrite filter_cons, IH. destruct (decide _) as [E|]; [congruence|done].
Qed.

Lemma alive_connect c0 :
  never_connected c0 →
  alive (clock c0) (sent_on "/xremote" c0) (sent_on "/xcontrol" c0 + 1)
        (connect None c0).2 0.
Proof.
  intros Hnc. split; simpl.
  - done.
  - unfold sent_on at 1. simpl. rewrite sent_on_snoc. simpl. lia.
  - unfold sent_on at 1. simpl. by rewrite sent_on_snoc.
  - rewrite filter_app, filter_keepalive_none; [done|].
    eapply Forall_impl; [exact Hnc|]. by intros t (_ & _ & Ht).
  - lia.
  - apply Forall_app_2.
    + eapply Forall_impl; [exact Hnc|]. intros t (Hd & Hp & _). auto.
    + apply Forall_singleton. simpl. split; [lia|by left].
Qed.

(** A timer turn of a connection that is alive. *)
Lemma alive_tick t0 base basex c c' j :
  alive t0 base basex c j → tick c = Some c' →
  ∃ j', alive t0 base basex c' j'.
Proof.
  intros [Hc Hsent Honce Hq Hclk Htm]. unfold tick.
  destruct (next_timer (timers c)) as [[t rest]|] eqn:Hn; [|done].
  intros <-%(inj Some).
  pose proof (next_timer_perm _ _ _ Hn) as Hperm.
  set (ka := mkTimer (t0 + 9000 * (Z.of_nat j + 1)) (Some 9000) KeepAlive) in *.
  assert (∀ u, u ∈ rest → Z.max (clock c) (due t) ≤ due u) as Hrest.
  { intros u Hu. assert (u ∈ timers c) as Hin
      by (rewrite Hperm; apply elem_of_cons; by right).
    pose proof (next_timer_least _ _ _ u Hn Hin).
    rewrite Forall_forall in Htm. destruct (Htm u Hin) as [Hdu _]. lia. }
  assert (t ∈ timers c) as Hint by (rewrite Hperm; apply elem_of_cons; by left).
  assert (filter (λ t, is_keepalive t = true) (t :: rest) ≡ₚ [ka]) as Hf
    by (by rewrite <- Hperm, Hq).
  rewrite filter_cons in Hf.
  destruct (decide (is_keepalive t = true)) as [Hka|Hka].
  - (* the keep-alive fires *)
    assert (t = ka) as ->.
    { assert (t ∈ filter (λ t, is_keepalive t = true) (timers c)) as Hin
        by (apply list_elem_of_filter; by split).
      rewrite Hq in Hin. by apply list_elem_of_singleton in Hin. }
    assert (filter (λ t, is_keepalive t = true) rest = []) as Hnone.
    { apply Permutation_length in Hf. simpl in Hf.
      destruct (filter _ rest); [done|simpl in Hf; lia]. }
    assert (clock c ≤ due ka) as Hdue
      by (rewrite Forall_forall in Htm; by destruct (Htm ka Hint)).
    exists (S j). split.
    + by rewrite run_callback_isConnected.
    + unfold sent_on. rewrite run_callback_KeepAlive_outbox. simpl. rewrite Hc.
      rewrite sent_on_snoc. simpl. rewrite Hsent. lia.
    + unfold sent_on. rewrite run_callback_KeepAlive_outbox. simpl. rewrite Hc.
      rewrite sent_on_snoc. simpl. rewrite Honce. lia.
    + rewrite run_callback_timers. simpl. rewrite filter_app, Hnone.
      unfold ka, rearm. cbn [period due callback app].
      rewrite filter_cons, filter_nil. simpl. do 2 f_equal. lia.
    + rewrite run_callback_clock. simpl in *. lia.
    + rewrite run_callback_timers, run_callback_clock. simpl.
      apply Forall_app_2.
      * apply Forall_forall. intros u Hu. split; [by apply Hrest|].
        rewrite Forall_forall in Htm. apply Htm. rewrite Hperm.
        apply elem_of_cons. by right.
      * apply Forall_singleton. simpl in *. split; [lia|by left].
  - (* a timeout fires *)
    assert (period t = None) as Hper.
    { rewrite Forall_forall in Htm. by destruct (Htm t Hint) as [_ [?|?]]. }
    assert (rearm t = []) as Hrearm by (unfold rearm; by rewrite Hper).
    apply Permutation_singleton_r in Hf.
    destruct (callback t) as [a q|] eqn:Hcb; [|by unfold is_keepalive in Hka; rewrite Hcb in Hka].
    exists j. split.
    + by rewrite run_callback_isConnected.
    + unfold sent_on. by rewrite run_callback_TimeoutCheck_outbox.
    + unfold sent_on. by rewrite run_callback_TimeoutCheck_outbox.
    + rewrite run_callback_timers. simpl. by rewrite Hrearm, app_nil_r.
    + rewrite run_callback_clock. simpl. lia.
    + rewrite run_callback_timers, run_callback_clock. simpl.
      rewrite Hrearm, app_nil_r.
      apply Forall_forall. intros u Hu. split; [by apply Hrest|].
      rewrite Forall_forall in Htm. apply Htm. rewrite Hperm.
      apply elem_of_cons. by right.
Qed.

Lemma alive_step t0 base basex e c c' j :
  user_event e → alive t0 base basex c j → step e c = Some c' →
  ∃ j', alive t0 base basex c' j'.
Proof.
  intros He Hal. destruct e as [err|a args0|a args0|m| |ms|]; cbn [step].
  - done.
  - intros <-%(inj Some). destruct Hal as [Hc Hsent Honce Hq Hclk Htm].
    destruct He as [He1 He2]. exists j. split.
    + by rewrite sendAndReceive_isConnected.
    + unfold sent_on. rewrite sendAndReceive_outbox. fold (sent_on "/xremote" (sendCommand a args0 c).2).
      rewrite sent_on_sendCommand, Hc. rewrite decide_False by done. lia.
    + unfold sent_on. rewrite sendAndReceive_outbox. fold (sent_on "/xcontrol" (sendCommand a args0 c).2).
      rewrite sent_on_sendCommand, Hc. rewrite decide_False by done. lia.
    + rewrite sendAndReceive_timers, filter_app, Hq. simpl.
      by rewrite filter_cons, filter_nil.
    + by rewrite sendAndReceive_clock.
    + rewrite sendAndReceive_timers, sendAndReceive_clock. apply Forall_app_2; [done|].
      apply Forall_singleton. simpl. split; [lia|by right].
  - intros <-%(inj Some). destruct Hal as [Hc Hsent Honce Hq Hclk Htm].
    destruct He as [He1 He2]. exists j. split.
    + by rewrite sendCommand_isConnected.
    + rewrite sent_on_sendCommand, Hc. rewrite decide_False by done. lia.
    + rewrite sent_on_sendCommand, Hc. rewrite decide_False by done. lia.
    + by rewrite sendCommand_timers.
    + by rewrite sendCommand_clock.
    + by rewrite sendCommand_timers, sendCommand_clock.
  - intros <-%(inj Some). destruct Hal as [Hc Hsent Honce Hq Hclk Htm].
    exists j. split.
    + by rewrite onMessage_isConnected.
    + unfold sent_on. by rewrite onMessage_outbox.
    + unfold sent_on. by rewrite onMessage_outbox.
    + by rewrite onMessage_timers.
    + by rewrite onMessage_clock.
    + by rewrite onMessage_timers, onMessage_clock.
  - by apply (alive_tick t0 base basex c c' j).
  - unfold sleep. destruct (decide _) as [[Hms Hdue]|]; [|done].
    intros <-%(inj Some). destruct Hal as [Hc Hsent Honce Hq Hclk Htm].
    exists j. split; simpl; try done.
    + lia.
    + rewrite Forall_forall in Htm, Hdue. apply Forall_forall. intros u Hu.
      split; [by apply Hdue|]. by destruct (Htm u Hu).
  - done.
Qed.

Lemma alive_run t0 base basex es c c' j :
  Forall user_event es → alive t0 base basex c j → run es c = Some c' →
  ∃ j', alive t0 base basex c' j'.
Proof.
  intros Hes. revert c j. induction Hes as [|e es He Hes IH]; intros c j Hal; simpl.
  - intros [= <-]. by exists j.
  - destruct (step e c) as [c1|] eqn:Hs; [|done]. simpl.
    destruct (alive_step _ _ _ e c c1 j He Hal Hs) as [j1 Hal1].
    by apply (IH c1 j1).
Qed.

(** While the connection is alive the clock never passes the renewal
    that is due next. *)
Lemma alive_clock_upper t0 base basex c j :
  alive t0 base basex c j → clock c ≤ t0 + 9000 * (Z.of_nat j + 1).
Proof.
  intros [Hc Hsent Honce Hq Hclk Htm].
  set (ka := mkTimer (t0 + 9000 * (Z.of_nat j + 1)) (Some 9000) KeepAlive) in *.
  assert (ka ∈ timers c) as Hin.
  { assert (ka ∈ filter (λ t, is_keepalive t = true) (timers c)) as Hin
      by (rewrite Hq; by apply list_elem_of_singleton).
    by apply list_elem_of_filter in Hin as [_ Hin]. }
  rewrite Forall_forall in Htm. by destruct (Htm ka Hin).
Qed.

(** C6.  [connect] succeeds on a client [c0] that was never connected,
    and the user then does anything but [connect], [close] or a
    hand-made ["/xremote"] or ["/xcontrol"], reaching [c]; then [close],
    and anything but [connect], reaching [c'].
    [connect] itself sends ["/xcontrol"], and in [c] it is still the only
    one.  The renewals sent up to [c] number [j], where the clock of [c]
    lies between 9000 ms times [j] and 9000 ms times [j + 1] after the
    connection: one every 9 seconds.  Nothing is sent between [close] and
    [c'].  When no timeout is queued at [connect], [n] timer turns are
    exactly [n] renewals, the last at 9000 ms times [n]. *)
Theorem keep_alive (c0 c c' : OSCClient) (es es' : list event) :
  never_connected c0 →
  let c1 := (connect None c0).2 in
  Forall user_event es → run es c1 = Some c →
  Forall not_connect es' → run es' (close c) = Some c' →
  outbox c1 = outbox c0 ++ [mkMessage "/xcontrol" []]
  ∧ sent_on "/xcontrol" c = (sent_on "/xcontrol" c0 + 1)%nat
  ∧ (∃ j : nat, sent_on "/xremote" c = (sent_on "/xremote" c0 + j)%nat
       ∧ clock c0 + 9000 * Z.of_nat j ≤ clock c
       ∧ clock c ≤ clock c0 + 9000 * (Z.of_nat j + 1))
  ∧ outbox c' = outbox c
  ∧ (timers c0 = [] → ∀ n, ∃ cn, ticks n c1 = Some cn
       ∧ outbox cn = outbox c0 ++ mkMessage "/xcontrol" []
                                  :: replicate n (mkMessage "/xremote" [])
       ∧ clock cn = clock c0 + 9000 * Z.of_nat n).
Proof.
  intros Hnc c1 Hes Hrun Hes' Hrun'.
  assert (outbox c1 = outbox c0 ++ [mkMessage "/xcontrol" []]) as Hout1 by done.
  destruct (alive_run _ _ _ es c1 c 0 Hes (alive_connect c0 Hnc) Hrun) as [j Hal].
  split; [done|]. split; [apply Hal|]. split.
  { exists j. split; [apply Hal|]. split; [apply Hal|].
    by eapply alive_clock_upper. }
  split.
  { by destruct (run_disconnected es' (close c) c' Hes' eq_refl Hrun'). }
  intros Htm n.
  assert (timers c1 = [mkTimer (clock c1 + 9000) (Some 9000) KeepAlive]) as Htm1.
  { unfold c1. simpl. by rewrite Htm. }
  destruct (ticks_keepalive n c1 Htm1) as (cn & Hticks & _ & Hclkn & _ & Houtn).
  exists cn. split; [done|]. split; [|done].
  rewrite Houtn, Hout1. simpl. by rewrite <- app_assoc.
Qed.

Lemma keep_alive_witness :
  let es := [Issue "/info" []; Tick; Tick; Sleep 500] in
  let c := after es connected in
  let es' := [Tick; Command "/ch/01/mix/fader" [VNum 0.5%float]; Tick] in
  let c' := after es' (close c) in
  never_connected fresh
  ∧ Forall user_event es ∧ run es (connect None fresh).2 = Some c
  ∧ Forall not_connect es' ∧ run es' (close c) = Some c'
  ∧ clock c = 9500 ∧ clock c' = 27000
  ∧ sent_on "/xcontrol" c = 1%nat
  ∧ (∃ j : nat, sent_on "/xremote" c = (sent_on "/xremote" fresh + j)%nat
       ∧ clock fresh + 9000 * Z.of_nat j ≤ clock c
       ∧ clock c ≤ clock fresh + 9000 * (Z.of_nat j + 1))
  ∧ outbox c' = outbox c.
Proof.
  intros es c es' c'.
  assert (never_connected fresh) as H0 by apply Forall_nil_2.
  assert (Forall user_event es) as H1 by (repeat constructor; done).
  assert (run es (connect None fresh).2 = Some c) as H2 by (vm_compute; reflexivity).
  assert (Forall not_connect es') as H3 by (repeat constructor).
  assert (run es' (close c) = Some c') as H4 by (vm_compute; reflexivity).
  destruct (keep_alive fresh c c' es es' H0 H1 H2 H3 H4) as (_ & Hx & Hj & Hout & _).
  refine (conj H0 (conj H1 (conj H2 (conj H3 (conj H4 _))))).
  split; [vm_compute; reflexivity|]. split; [vm_compute; reflexivity|].
  exact (conj Hx (conj Hj Hout)).
Defined.

(** C7.  On arguments osc-js can encode, the executor of
    [sendAndReceive] goes through four states: the state at the call,
    with the new promise; then the callback of the call is stored under
    the address and nothing has been sent yet; then the request has been
    handed to the transport, if the client is connected, and the callback
    is still stored; then the timeout is armed.  The last state is the
    one [sendAndReceive] returns, and the promise is pending in it.  So
    in every state whose outbox differs from the outbox at the call, the
    callback of this call is stored under the address. *)
Theorem waiter_before_send (a : string) (args0 : list value) (c : OSCClient) :
  forallb encodable args0 = true →
  let pid := (new_promise c).1 in
  let trace := states (sendAndReceive_body a args0 pid) (new_promise c).2 in
  let sent := if isConnected c then [mkMessage a args0] else [] in
  (∃ c0 c1 c2 c3,
     trace = [c0; c1; c2; c3]
     ∧ (responseCallbacks c0 = responseCallbacks c ∧ outbox c0 = outbox c)
     ∧ (responseCallbacks c1 !! a = Some pid ∧ outbox c1 = outbox c)
     ∧ (responseCallbacks c2 !! a = Some pid ∧ outbox c2 = outbox c ++ sent)
     ∧ (responseCallbacks c3 !! a = Some pid ∧ outbox c3 = outbox c ++ sent
        ∧ mkTimer (clock c + 1000) None (TimeoutCheck a pid) ∈ timers c3)
     ∧ c3 = (sendAndReceive a args0 c).2)
  ∧ promises (sendAndReceive a args0 c).2 !! pid = Some Pending
  ∧ Forall (λ s, outbox s ≠ outbox c → responseCallbacks s !! a = Some pid) trace.
Proof.
  intros _ pid trace sent. split; [|split].
  - unfold trace, pid, sent. cbn [sendAndReceive_body states new_promise fst snd].
    eexists _, _, _, _. split; [reflexivity|].
    unfold sendAndReceive, exec, sendCommand.
    cbn [new_promise sendAndReceive_body foldl fst snd].
    destruct (isConnected c) eqn:E; simpl; rewrite ?E; simpl; rewrite ?app_nil_r.
    all: split; [done|].
    all: do 2 (split; [by split; [apply lookup_insert_eq|]|]).
    all: split; [|by unfold sendCommand; simpl; rewrite E].
    all: split; [apply lookup_insert_eq|split; [done|]].
    all: apply elem_of_app; right; by apply list_elem_of_singleton.
  - apply (sendAndReceive_registered a args0 c).
  - unfold trace, pid. simpl.
    repeat apply Forall_cons_2; try apply Forall_nil_2; simpl.
    + done.
    + intros _. apply lookup_insert_eq.
    + intros _. unfold sendCommand. simpl.
      destruct (isConnected c); simpl; apply lookup_insert_eq.
    + intros _. unfold sendCommand. simpl.
      destruct (isConnected c); simpl; apply lookup_insert_eq.
Qed.

Lemma waiter_before_send_witness :
  let a := "/ch/01/mix/fader" in
  forallb encodable [] = true
  ∧ states (sendAndReceive_body a [] 0) (new_promise connected).2
    = [ (new_promise connected).2;
        set_responseCallbacks {[ a := 0%nat ]} (new_promise connected).2;
        osc_send (mkMessage a [])
          (set_responseCallbacks {[ a := 0%nat ]} (new_promise connected).2);
        (sendAndReceive a [] connected).2 ]
  ∧ outbox (sendAndReceive a [] connected).2
    = [mkMessage "/xcontrol" []; mkMessage a []]
  ∧ Forall (λ s, outbox s ≠ outbox connected →
                 responseCallbacks s !! a = Some 0%nat)
           (states (sendAndReceive_body a [] 0) (new_promise connected).2).
Proof.
  intros a.
  destruct (waiter_before_send a [] connected eq_refl) as (_ & _ & Hall).
  refine (conj eq_refl (conj _ (conj _ Hall))); vm_compute; reflexivity.
Defined.

(** C4, as stated, fails.  A setter called before [connect], and the
    same setter called after [close], sends nothing and raises nothing:
    [sendCommand] returns and the promise of the setter is fulfilled. *)
Lemma not_connected_counterexample :
  let a := "/ch/01/mix/fader" in
  let args0 := [VNum 0.5%float] in
  isConnected fresh = false
  ∧ sendCommand a args0 fresh = (Returned, console_error "OSC not connected" fresh)
  ∧ (async_command a args0 fresh).1 = Fulfilled VUndefined
  ∧ isConnected (close connected) = false
  ∧ (sendCommand a args0 (close connected)).1 = Returned
  ∧ (async_command a args0 (close connected)).1 = Fulfilled VUndefined
  ∧ outbox (async_command a args0 (close connected)).2 = outbox connected.
Proof. intros a args0. repeat split; vm_compute; reflexivity. Qed.

(** C4, amended.  The client is not connected when it is constructed,
    after [close], and after a [connect] that failed on a client that was
    not connected.  A send on a client that is not connected transmits
    nothing, writes "OSC not connected" to the error console and returns:
    the promise of a setter is fulfilled, and a getter stores its
    callback and arms its timeout as usual, so that it fails later with
    the timeout error. *)
Theorem send_when_disconnected
    (a : string) (args0 : list value) (c : OSCClient) :
  isConnected c = false →
  (∀ h p, isConnected (constructor h p) = false)
  ∧ (∀ c', isConnected (close c') = false)
  ∧ (∀ e, isConnected (connect (Some e) c).2 = false)
  ∧ sendCommand a args0 c = (Returned, console_error "OSC not connected" c)
  ∧ async_command a args0 c
    = (Fulfilled VUndefined, console_error "OSC not connected" c)
  ∧ outbox (sendCommand a args0 c).2 = outbox c
  ∧ stderr (sendCommand a args0 c).2 = stderr c ++ ["OSC not connected"]
  ∧ outbox (sendAndReceive a args0 c).2 = outbox c
  ∧ registered a (sendAndReceive a args0 c).1 (sendAndReceive a args0 c).2
  ∧ mkTimer (clock c + 1000) None (TimeoutCheck a (sendAndReceive a args0 c).1)
    ∈ timers (sendAndReceive a args0 c).2.
Proof.
  intros Hc. split; [done|]. split; [done|]. split; [done|].
  pose proof (sendCommand_disconnected a args0 c Hc) as Hs.
  split; [done|]. split; [unfold async_command; by rewrite Hs|].
  split; [by rewrite Hs|]. split; [by rewrite Hs|].
  split.
  - unfold sendAndReceive, exec. simpl. unfold sendCommand. simpl. by rewrite Hc.
  - split; [apply sendAndReceive_registered|].
    rewrite sendAndReceive_timers. apply elem_of_app. right.
    by apply list_elem_of_singleton.
Qed.

Lemma send_when_disconnected_witness :
  isConnected (close connected) = false
  ∧ async_command "/ch/01/mix/fader" [VNum 0.5%float] (close connected)
    = (Fulfilled VUndefined, console_error "OSC not connected" (close connected))
  ∧ outbox (sendAndReceive "/info" [] (close connected)).2 = outbox connected.
Proof.
  split; [reflexivity|].
  destruct (send_when_disconnected "/ch/01/mix/fader" [VNum 0.5%float]
              (close connected) eq_refl) as (_ & _ & _ & _ & Hasync & _).
  destruct (send_when_disconnected "/info" [] (close connected) eq_refl)
    as (_ & _ & _ & _ & _ & _ & _ & Hout & _).
  exact (conj Hasync Hout).
Defined.

(** C5, as stated, fails.  With a call on ["/info"] pending, [close]
    leaves its promise pending and its callback stored, and leaves both
    the timeout of the call and the keep-alive interval queued.  The next
    timer turn after [close] runs the timeout, which rejects the promise
    with the timeout error; the turn after that runs the keep-alive. *)
Lemma close_counterexample :
  let c := close half_waited in
  promises half_waited !! 0%nat = Some Pending
  ∧ promises c !! 0%nat = Some Pending
  ∧ responseCallbacks c !! "/info" = Some 0%nat
  ∧ timers c = [mkTimer 9000 (Some 9000) KeepAlive;
                mkTimer 1000 None (TimeoutCheck "/info" 0)]
  ∧ promises (after [Tick] c) !! 0%nat
    = Some (Rejected "Timeout waiting for response from /info")
  ∧ timers (after [Tick; Tick] c) = [mkTimer 18000 (Some 9000) KeepAlive]
  ∧ clock (after [Tick; Tick] c) = 9000.
Proof. intros c. repeat split; vm_compute; reflexivity. Qed.

(** C5, amended.  [close] clears the connected flag and closes the
    socket, and nothing else: callbacks, promises and timers are as
    before.  A keep-alive that fires afterwards sends nothing, and a
    timeout that fires afterwards, while a callback is stored for its
    address, rejects its pending promise with the timeout error. *)
Theorem close_effect (c : OSCClient) :
  isConnected (close c) = false
  ∧ osc_open (close c) = false
  ∧ responseCallbacks (close c) = responseCallbacks c
  ∧ promises (close c) = promises c
  ∧ timers (close c) = timers c
  ∧ outbox (close c) = outbox c
  ∧ close (close c) = close c
  ∧ outbox (run_callback KeepAlive (close c)) = outbox c
  ∧ ∀ a pid d rest,
      next_timer (timers c) = Some (mkTimer d None (TimeoutCheck a pid), rest) →
      promises c !! pid = Some Pending →
      is_Some (responseCallbacks c !! a) →
      ∃ c', tick (close c) = Some c'
            ∧ promises c' !! pid = Some (Rejected (timeout_message a))
            ∧ responseCallbacks c' !! a = None.
Proof.
  do 7 (split; [done|]). split.
  - rewrite run_callback_KeepAlive_outbox. simpl. by rewrite app_nil_r.
  - intros a pid d rest Hn Hp Hcb.
    destruct (tick_timeout a pid d rest (close c) Hn Hp Hcb)
      as (c' & Ht & _ & Hrej & Hdel & _).
    by exists c'.
Qed.

(** C8.  Read over the rationals, each decoder undoes its encoder and
    each encoder undoes its decoder, at every input, inside the
    documented range or outside it: nothing is clamped.  Evaluated in
    binary64, as JavaScript does, the round trip is exact at the ends and
    the middle of each range, and inputs outside the range pass through;
    [setPan] and [setEQ] put the encoded value on the wire. *)
Theorem codec_roundtrip :
  (∀ x : Q, getPan_human (setPan_wire x) == x
            ∧ getEQ_human (setEQ_wire x) == x
            ∧ getGate_human (setGate_wire x) == x)%Q
  ∧ (∀ w : Q, setPan_wire (getPan_human w) == w
              ∧ setEQ_wire (getEQ_human w) == w
              ∧ setGate_wire (getGate_human w) == w)%Q
  ∧ Forall (λ x : float, getPan_human (setPan_wire x) = x)
           [(-1)%float; 0%float; 1%float]
  ∧ Forall (λ x : float, getEQ_human (setEQ_wire x) = x)
           [(-15)%float; 0%float; 15%float]
  ∧ Forall (λ x : float, getGate_human (setGate_wire x) = x)
           [(-80)%float; (-40)%float; 0%float]
  ∧ (setPan_wire (-1)%float, setPan_wire 0%float, setPan_wire 1%float)
    = (0%float, 0.5%float, 1%float)
  ∧ (setEQ_wire (-15)%float, setEQ_wire 0%float, setEQ_wire 15%float)
    = (0%float, 0.5%float, 1%float)
  ∧ (setPan_wire 3%float, getPan_human 2%float) = (2%float, 3%float)
  ∧ (setEQ_wire 45%float, getEQ_human 2%float) = (2%float, 45%float)
  ∧ outbox (setPan 2 (-1)%float connected).2
    = [mkMessage "/xcontrol" []; mkMessage "/ch/02/mix/pan" [VNum 0%float]]
  ∧ outbox (setEQ 1 1 15%float connected).2
    = [mkMessage "/xcontrol" []; mkMessage "/ch/01/eq/1/g" [VNum 1%float]].
Proof.
  split; [|split].
  - intros x. unfold getPan_human, setPan_wire, getEQ_human, setEQ_wire,
      getGate_human, setGate_wire. simpl. repeat split; field.
  - intros w. unfold getPan_human, setPan_wire, getEQ_human, setEQ_wire,
      getGate_human, setGate_wire. simpl. repeat split; field.
  - repeat split; repeat constructor; vm_compute; reflexivity.
Qed.

(** ** Boolean controls *)

Lemma async_command_connected a args0 c :
  isConnected c = true →
  async_command a args0 c
  = (Fulfilled VUndefined, osc_send (mkMessage a args0) c).
Proof. intros Hc. unfold async_command, sendCommand. by rewrite Hc. Qed.

(** C9.  On a connected client, [muteChannel] sends 0 to the
    ["/mix/on"] path of the channel to mute and 1 to unmute, while
    [setGateOn] and [setEQOn] send 1 to switch on and 0 to switch off.
    [getMute] asks on the same ["/mix/on"] path and, when the reply
    comes, answers whether its first argument is the number 0: true for
    0, false for 1. *)
Theorem mute_polarity (channel : nat) (c : OSCClient) :
  isConnected c = true →
  let on_path := getChannelPath channel +:+ "/mix/on" in
  let sent f := outbox (f c).2 in
  sent (muteChannel channel true) = outbox c ++ [mkMessage on_path [VNum 0%float]]
  ∧ sent (muteChannel channel false) = outbox c ++ [mkMessage on_path [VNum 1%float]]
  ∧ sent (setGateOn channel true)
    = outbox c ++ [mkMessage (getChannelPath channel +:+ "/gate/on") [VNum 1%float]]
  ∧ sent (setGateOn channel false)
    = outbox c ++ [mkMessage (getChannelPath channel +:+ "/gate/on") [VNum 0%float]]
  ∧ sent (setEQOn channel true)
    = outbox c ++ [mkMessage (getChannelPath channel +:+ "/eq/on") [VNum 1%float]]
  ∧ sent (setEQOn channel false)
    = outbox c ++ [mkMessage (getChannelPath channel +:+ "/eq/on") [VNum 0%float]]
  ∧ outbox (getMute channel c).2 = outbox c ++ [mkMessage on_path []]
  ∧ registered on_path (getMute channel c).1 (getMute channel c).2
  ∧ (∀ m v vs, address m = on_path → args m = v :: vs →
       getMute_result (getMute channel c).1 (onMessage m (getMute channel c).2)
       = Some (inl (strict_equals v (VNum 0%float))))
  ∧ strict_equals (VNum 0%float) (VNum 0%float) = true
  ∧ strict_equals (VNum 1%float) (VNum 0%float) = false
  ∧ ∀ v, strict_equals v (VNum 0%float) = true
         ↔ ∃ x, v = VNum x ∧ PrimFloat.eqb x 0%float = true.
Proof.
  intros Hc on_path sent.
  assert (∀ a args0, outbox (async_command a args0 c).2
                     = outbox c ++ [mkMessage a args0]) as Hsent
    by (intros a args0; by rewrite async_command_connected).
  do 6 (split; [apply Hsent|]).
  split.
  { unfold getMute, sendAndReceive, exec. simpl. unfold sendCommand. simpl.
    by rewrite Hc. }
  pose proof (sendAndReceive_registered on_path [] c) as Hreg.
  split; [done|]. split.
  { intros m v vs Ha Hargs.
    destruct (onMessage_match on_path _ _ m v vs Hreg Ha Hargs) as [Hres _].
    unfold getMute_result, getMute. fold on_path. by rewrite Hres. }
  split; [done|]. split; [done|].
  intros v. split.
  - destruct v as [x|s|]; simpl; [|done..]. intros Hx. by exists x.
  - by intros (x & -> & Hx).
Qed.

Lemma mute_polarity_witness :
  isConnected connected = true
  ∧ outbox (muteChannel 1 true connected).2
    = [mkMessage "/xcontrol" []; mkMessage "/ch/01/mix/on" [VNum 0%float]]
  ∧ outbox (setGateOn 1 true connected).2
    = [mkMessage "/xcontrol" []; mkMessage "/ch/01/gate/on" [VNum 1%float]].
Proof.
  split; [reflexivity|].
  destruct (mute_polarity 1 connected eq_refl) as (Hmute & _ & Hgate & _).
  exact (conj Hmute Hgate).
Defined.

(** * The rest of the class: properties *)

(** ** Decimal notation and padding *)

Lemma append_snoc (r : string) (ch : Ascii.ascii) (s : string) :
  (r +:+ String ch "") +:+ s = r +:+ String ch s.
Proof.
  induction r as [|a r IH]; [done|].
  change (String a ((r +:+ String ch "") +:+ s) = String a (r +:+ String ch s)).
  by rewrite IH.
Qed.

Lemma pretty_N_go_suffix (x : N) (s : string) :
  ∃ r, pretty_N_go x s = r +:+ s.
Proof.
  revert s. induction (N.lt_wf_0 x) as [x _ IH]; intros s.
  assert (x = 0 ∨ 0 < x)%N as [->|Hx] by lia.
  - exists "". by rewrite pretty_N_go_0.
  - rewrite pretty_N_go_step by done.
    destruct (IH (x `div` 10)%N (N.div_lt x 10 Hx eq_refl)
                (String (pretty_N_char (x `mod` 10)) s)) as [r ->].
    exists (r +:+ String (pretty_N_char (x `mod` 10)) "").
    by rewrite append_snoc.
Qed.

(** The decimal notation of a positive number does not start with 0. *)
Lemma pretty_N_go_head (x : N) (s : string) :
  (0 < x)%N → ∃ ch r, pretty_N_go x s = String ch r ∧ ch ≠ pretty_N_char 0.
Proof.
  revert s. induction (N.lt_wf_0 x) as [x _ IH]; intros s Hx.
  rewrite pretty_N_go_step by done.
  assert (x < 10 ∨ 10 ≤ x)%N as [Hlt|Hge] by lia.
  - rewrite N.div_small, pretty_N_go_0 by done. eexists _, _. split; [done|].
    rewrite N.mod_small by done. intros Hch.
    apply pretty_N_char_inj in Hch; lia.
  - apply IH; [by apply N.div_lt|]. apply N.div_str_pos_iff; lia.
Qed.

Lemma pretty_nat_small (n : nat) :
  (n < 10)%nat → pretty n = String (pretty_N_char (N.of_nat n)) "".
Proof.
  intros Hn. unfold pretty, pretty_nat, pretty, pretty_N.
  destruct (decide (N.of_nat n = 0%N)) as [->|Hne]; [done|].
  rewrite pretty_N_go_step by lia.
  rewrite N.div_small, pretty_N_go_0, N.mod_small by lia. done.
Qed.

Lemma pretty_nat_large (n : nat) :
  (10 ≤ n)%nat →
  ∃ a b r, pretty n = String a (String b r) ∧ a ≠ pretty_N_char 0.
Proof.
  intros Hn. unfold pretty, pretty_nat, pretty, pretty_N.
  rewrite decide_False by lia.
  destruct (pretty_N_go_head (N.of_nat n) "") as (a & r & Hr & Ha); [lia|].
  rewrite Hr. exists a. destruct r as [|b r]; [|by eauto].
  exfalso. rewrite pretty_N_go_step in Hr by lia.
  destruct (pretty_N_go_suffix (N.of_nat n `div` 10)
              (String (pretty_N_char (N.of_nat n `mod` 10)) "")) as [r' Hr'].
  rewrite Hr' in Hr. destruct r' as [|a' r']; simpl in Hr.
  + assert (0 < N.of_nat n `div` 10)%N as Hpos by (apply N.div_str_pos_iff; lia).
    rewrite pretty_N_go_step in Hr' by done.
    destruct (pretty_N_go_suffix ((N.of_nat n `div` 10) `div` 10)
                (String (pretty_N_char ((N.of_nat n `div` 10) `mod` 10))
                   (String (pretty_N_char (N.of_nat n `mod` 10)) ""))) as [r2 Hr2].
    rewrite Hr2 in Hr'. by destruct r2 as [|? [|? ?]].
  + injection Hr as _ Hr. by destruct r'.
Qed.

Lemma padStart_2 (s : string) :
  padStart 2 "0" s
  = match s with
    | "" => "00"
    | String a "" => "0" +:+ String a ""
    | _ => s
    end.
Proof.
  destruct s as [|a [|b s]]; [done..|].
  unfold padStart. by rewrite decide_True by (simpl; lia).
Qed.

Lemma padStart_3 (s : string) :
  padStart 3 "0" s
  = match s with
    | "" => "000"
    | String a "" => "00" +:+ String a ""
    | String a (String b "") => "0" +:+ String a (String b "")
    | _ => s
    end.
Proof.
  destruct s as [|a [|b [|d s]]]; [done..|].
  unfold padStart. by rewrite decide_True by (simpl; lia).
Qed.

(** The shape of a padded index: one zero in front of a single digit,
    the decimal notation itself from 10 on. *)
Lemma padStart_2_pretty (n : nat) :
  padStart 2 "0" (pretty n)
  = if decide (n < 10)%nat then "0" +:+ pretty n else pretty n.
Proof.
  rewrite padStart_2. destruct (decide (n < 10)%nat) as [Hn|Hn].
  - by rewrite pretty_nat_small.
  - destruct (pretty_nat_large n) as (a & b & r & -> & _); [lia|done].
Qed.

Lemma pretty_nat_no_leading_zero (n : nat) (r : string) :
  pretty n = "0" +:+ r → n = 0%nat.
Proof.
  intros Hp. destruct (decide (n < 10)%nat) as [Hn|Hn].
  - rewrite pretty_nat_small in Hp by done.
    change (String (pretty_N_char (N.of_nat n)) ""
            = String (pretty_N_char 0) r) in Hp.
    injection Hp as Hch _.
    change (pretty_N_char (N.of_nat n) = pretty_N_char 0) in Hch.
    apply pretty_N_char_inj in Hch; lia.
  - destruct (pretty_nat_large n) as (a & b & r' & Hr & Ha); [lia|].
    rewrite Hr in Hp. by injection Hp as -> _.
Qed.

Lemma padStart_2_pretty_inj (n m : nat) :
  padStart 2 "0" (pretty n) = padStart 2 "0" (pretty m) → n = m.
Proof.
  rewrite !padStart_2_pretty.
  destruct (decide (n < 10)%nat), (decide (m < 10)%nat); intros Heq.
  - apply (inj (String.app "0")) in Heq. by apply (inj pretty).
  - symmetry in Heq. apply pretty_nat_no_leading_zero in Heq. lia.
  - apply pretty_nat_no_leading_zero in Heq. lia.
  - by apply (inj pretty).
Qed.

Lemma pretty_nat_leading_zero_only (n : nat) (r : string) :
  pretty n = "0" +:+ r → r = "".
Proof.
  intros Hp. pose proof (pretty_nat_no_leading_zero n r Hp) as ->.
  change (String (pretty_N_char 0) "" = String (pretty_N_char 0) r) in Hp.
  by injection Hp as <-.
Qed.

Lemma pretty_nat_nonempty (n : nat) : pretty n ≠ "".
Proof.
  destruct (decide (n < 10)%nat) as [Hn|Hn].
  - by rewrite pretty_nat_small.
  - destruct (pretty_nat_large n) as (a & b & r & -> & _); [lia|done].
Qed.

Lemma padStart_3_pretty_inj (n m : nat) :
  padStart 3 "0" (pretty n) = padStart 3 "0" (pretty m) → n = m.
Proof.
  rewrite !padStart_3. intros Heq. apply (inj pretty).
  pose proof (pretty_nat_nonempty n) as Hn0.
  pose proof (pretty_nat_nonempty m) as Hm0.
  pose proof (pretty_nat_leading_zero_only n) as Hn.
  pose proof (pretty_nat_leading_zero_only m) as Hm.
  destruct (pretty n) as [|a [|b [|d r]]]; [done|..];
    destruct (pretty m) as [|a' [|b' [|d' r']]]; try done;
    injection Heq as; subst;
    first [ done
          | by specialize (Hn _ eq_refl)
          | by specialize (Hm _ eq_refl) ].
Qed.

(** X1.  Each path builder maps different indices to different
    addresses: channels, buses, auxes, matrices, DCA groups and headamps
    never share an address, hence never share an entry of the callback
    map. *)
Theorem paths_injective :
  (∀ n m, getChannelPath n = getChannelPath m → n = m)
  ∧ (∀ n m, getBusPath n = getBusPath m → n = m)
  ∧ (∀ n m, getAuxPath n = getAuxPath m → n = m)
  ∧ (∀ n m, getMatrixPath n = getMatrixPath m → n = m)
  ∧ (∀ n m, getDCAPath n = getDCAPath m → n = m)
  ∧ (∀ n m, getHeadampPath n = getHeadampPath m → n = m).
Proof.
  repeat split; intros n m Heq.
  - by apply padStart_2_pretty_inj, (inj (String.app "/ch/")).
  - by apply padStart_2_pretty_inj, (inj (String.app "/bus/")).
  - by apply padStart_2_pretty_inj, (inj (String.app "/aux/")).
  - by apply padStart_2_pretty_inj, (inj (String.app "/mtx/")).
  - by apply (inj pretty), (inj (String.app "/dca/")).
  - by apply padStart_3_pretty_inj, (inj (String.app "/headamp/")).
Qed.

(** X2.  For an index up to [Number.MAX_SAFE_INTEGER], the index in a
    path is written with two digits at least and is never cut: one zero
    goes in front of an index below 10, and from 10 on, also from 100 on,
    the index stands as its decimal notation. *)
Theorem path_index_format (n : nat) :
  safe_index n →
  getChannelPath n
  = (if decide (n < 10)%nat then "/ch/0" +:+ pretty n else "/ch/" +:+ pretty n)
  ∧ getBusPath n
    = (if decide (n < 10)%nat then "/bus/0" +:+ pretty n else "/bus/" +:+ pretty n)
  ∧ getAuxPath n
    = (if decide (n < 10)%nat then "/aux/0" +:+ pretty n else "/aux/" +:+ pretty n)
  ∧ getMatrixPath n
    = (if decide (n < 10)%nat then "/mtx/0" +:+ pretty n else "/mtx/" +:+ pretty n)
  ∧ getDCAPath n = "/dca/" +:+ pretty n
  ∧ (getChannelPath 7, getChannelPath 32, getChannelPath 100, getHeadampPath 7)
    = ("/ch/07", "/ch/32", "/ch/100", "/headamp/007").
Proof.
  intros _.
  unfold getChannelPath, getBusPath, getAuxPath, getMatrixPath, getDCAPath.
  rewrite padStart_2_pretty.
  destruct (decide (n < 10)%nat); repeat split; vm_compute; reflexivity.
Qed.

Lemma path_index_format_witness :
  safe_index 32
  ∧ getChannelPath 32 = "/ch/32"
  ∧ getBusPath 32 = "/bus/32"
  ∧ getDCAPath 32 = "/dca/32".
Proof.
  assert (safe_index 32) as Hs by (unfold safe_index, MAX_SAFE_INTEGER; lia).
  destruct (path_index_format 32 Hs) as (Hch & Hbus & _ & _ & Hdca & _).
  exact (conj Hs (conj Hch (conj Hbus Hdca))).
Defined.

(** ** Replies *)

Lemma onMessage_registered a p c m v vs :
  registered a p c → address m = a → args m = v :: vs →
  onMessage m c
  = set_responseCallbacks (delete a (responseCallbacks c))
      (set_promises (<[p := Fulfilled v]> (promises c)) c).
Proof.
  intros [Hcb Hp] Ha Hargs. unfold onMessage. rewrite Ha, Hcb, Hargs.
  unfold settle. by rewrite Hp.
Qed.

(** X3.  Calls on different addresses do not interfere.  Two calls made
    one after the other on different addresses are both pending; and
    whenever two calls are pending on different addresses, their replies
    may come in either order: the client ends in the same state, each
    call has the first argument of its own reply, and both entries are
    gone. *)
Theorem replies_commute
    (a b : string) (p q : nat) (c : OSCClient)
    (ma mb : Message) (va vb : value) (ra rb : list value) :
  wf c → a ≠ b → registered a p c → registered b q c →
  address ma = a → args ma = va :: ra →
  address mb = b → args mb = vb :: rb →
  onMessage ma (onMessage mb c) = onMessage mb (onMessage ma c)
  ∧ promises (onMessage ma (onMessage mb c)) !! p = Some (Fulfilled va)
  ∧ promises (onMessage ma (onMessage mb c)) !! q = Some (Fulfilled vb)
  ∧ responseCallbacks (onMessage ma (onMessage mb c)) !! a = None
  ∧ responseCallbacks (onMessage ma (onMessage mb c)) !! b = None
  ∧ ∀ args1 args2 c0, wf c0 →
      let call1 := sendAndReceive a args1 c0 in
      let call2 := sendAndReceive b args2 call1.2 in
      registered a call1.1 call2.2 ∧ registered b call2.1 call2.2.
Proof.
  intros Hwf Hab Hra Hrb Hma Hargsa Hmb Hargsb.
  assert (∀ args1 args2 c0, wf c0 →
            registered a (sendAndReceive a args1 c0).1
              (sendAndReceive b args2 (sendAndReceive a args1 c0).2).2
            ∧ registered b (sendAndReceive b args2 (sendAndReceive a args1 c0).2).1
                (sendAndReceive b args2 (sendAndReceive a args1 c0).2).2) as Hboth.
  { intros args1 args2 c0 Hwf0. split; [|apply sendAndReceive_registered].
    apply (registered_step a _ (Issue b args2) (sendAndReceive a args1 c0).2);
      [by apply wf_sendAndReceive|apply sendAndReceive_registered| |done].
    cbn [disturbs]. by apply bool_decide_eq_false. }
  assert (p ≠ q) as Hpq.
  { intros ->. apply Hab. eapply (wf_inj c Hwf); [apply Hra|apply Hrb]. }
  assert (registered a p (onMessage mb c)) as Hra'.
  { apply onMessage_other; [done..|]. by rewrite Hmb. }
  assert (registered b q (onMessage ma c)) as Hrb'.
  { apply onMessage_other; [done..|]. by rewrite Hma. }
  rewrite (onMessage_registered a p _ ma va ra Hra' Hma Hargsa).
  rewrite (onMessage_registered b q _ mb vb rb Hrb' Hmb Hargsb).
  rewrite (onMessage_registered a p c ma va ra Hra Hma Hargsa).
  rewrite (onMessage_registered b q c mb vb rb Hrb Hmb Hargsb).
  destruct Hra as [_ Hp], Hrb as [_ Hq].
  pose proof (lookup_lt_Some _ _ _ Hp) as Hlp.
  pose proof (lookup_lt_Some _ _ _ Hq) as Hlq.
  split; [|split; [|split; [|split; [|split; [|exact Hboth]]]]]; simpl.
  - unfold set_responseCallbacks, set_promises. simpl.
    rewrite (list_insert_insert_ne _ p q) by done.
    by rewrite (delete_delete _ a b).
  - by rewrite list_lookup_insert_eq by (by rewrite length_insert).
  - rewrite list_lookup_insert_ne by done. by rewrite list_lookup_insert_eq.
  - apply lookup_delete_eq.
  - rewrite lookup_delete_ne by done. apply lookup_delete_eq.
Qed.

Lemma replies_commute_witness :
  let c := after [Issue "/info" []; Issue "/status" []] connected in
  let ma := mkMessage "/info" [VStr "X32"] in
  let mb := mkMessage "/status" [VStr "active"] in
  wf c ∧ registered "/info" 0 c ∧ registered "/status" 1 c
  ∧ onMessage ma (onMessage mb c) = onMessage mb (onMessage ma c)
  ∧ promises (onMessage ma (onMessage mb c))
    = [Fulfilled (VStr "X32"); Fulfilled (VStr "active")].
Proof.
  intros c ma mb.
  assert (wf c) as Hwf by apply wf_after, wf_connected.
  assert (registered "/info" 0 c) as Ha by (split; vm_compute; reflexivity).
  assert (registered "/status" 1 c) as Hb by (split; vm_compute; reflexivity).
  assert ("/info" ≠ "/status") as Hne by done.
  destruct (replies_commute "/info" "/status" 0 1 c ma mb
              (VStr "X32") (VStr "active") [] [] Hwf Hne Ha Hb
              eq_refl eq_refl eq_refl eq_refl) as (Hcomm & _).
  refine (conj Hwf (conj Ha (conj Hb (conj Hcomm _)))).
  vm_compute; reflexivity.
Defined.

(** X4.  Delivering the same datagram twice is the same as delivering it
    once, and a datagram for an address with no stored callback (an
    unsolicited push) changes nothing. *)
Theorem reply_idempotent (m : Message) (c : OSCClient) :
  onMessage m (onMessage m c) = onMessage m c
  ∧ (responseCallbacks c !! address m = None → onMessage m c = c).
Proof.
  split; [|apply onMessage_unregistered].
  destruct (responseCallbacks c !! address m) as [p|] eqn:Hcb.
  - destruct (args m) as [|v vs] eqn:Hargs.
    + by rewrite !(onMessage_empty m c Hargs).
    + apply onMessage_unregistered. unfold onMessage. rewrite Hcb, Hargs.
      simpl. apply lookup_delete_eq.
  - by rewrite !(onMessage_unregistered m c Hcb).
Qed.

(** ** Promises *)

Lemma settle_final pid s q s' c :
  promises c !! pid = Some s → s ≠ Pending →
  promises (settle q s' c) !! pid = Some s.
Proof.
  intros Hp Hs. destruct (decide (q = pid)) as [->|Hne].
  - unfold settle. rewrite Hp. by destruct s.
  - by rewrite settle_other.
Qed.

Lemma run_callback_final pid s cb c :
  promises c !! pid = Some s → s ≠ Pending →
  promises (run_callback cb c) !! pid = Some s.
Proof.
  intros Hp Hs. destruct cb as [a q|]; simpl.
  - destruct (decide _); [|done]. by apply settle_final.
  - by rewrite sendCommand_promises.
Qed.

Lemma step_final pid s e c c' :
  promises c !! pid = Some s → s ≠ Pending → step e c = Some c' →
  promises c' !! pid = Some s.
Proof.
  intros Hp Hs. destruct e as [err|a args0|a args0|m| |ms|]; cbn [step].
  - intros <-%(inj Some). by destruct err.
  - intros <-%(inj Some). rewrite sendAndReceive_promises.
    rewrite lookup_app_l; [done|]. by eapply lookup_lt_Some.
  - intros <-%(inj Some). by rewrite sendCommand_promises.
  - intros <-%(inj Some). unfold onMessage.
    destruct (responseCallbacks c !! address m); [|done].
    destruct (args m); [done|]. simpl. by apply settle_final.
  - unfold tick. destruct (next_timer (timers c)) as [[t rest]|]; [|done].
    intros <-%(inj Some). by apply run_callback_final.
  - unfold sleep. destruct (decide _); [|done]. by intros <-%(inj Some).
  - by intros <-%(inj Some).
Qed.

(** X5.  A call is settled once: a promise that is fulfilled or rejected
    keeps its value through every later event, so a call that got its
    reply is never failed by a timeout and a call that timed out never
    gets a value. *)
Theorem settlement_final
    (pid : nat) (s : settlement) (es : list event) (c c' : OSCClient) :
  promises c !! pid = Some s → s ≠ Pending → run es c = Some c' →
  promises c' !! pid = Some s.
Proof.
  intros Hp Hs. revert c Hp. induction es as [|e es IH]; intros c Hp; simpl.
  - by intros [= <-].
  - destruct (step e c) as [c1|] eqn:Hstep; [|done]. simpl.
    apply IH. by eapply step_final.
Qed.

Lemma settlement_final_witness :
  let es := [Tick; Inbound (mkMessage "/info" [VStr "late"]); Tick; Close] in
  promises answered !! 0%nat = Some (Fulfilled (VStr "X32"))
  ∧ Fulfilled (VStr "X32") ≠ Pending
  ∧ run es answered = Some (after es answered)
  ∧ promises (after es answered) !! 0%nat = Some (Fulfilled (VStr "X32")).
Proof.
  intros es.
  assert (promises answered !! 0%nat = Some (Fulfilled (VStr "X32"))) as H0
    by (vm_compute; reflexivity).
  assert (Fulfilled (VStr "X32") ≠ Pending) as H1 by done.
  assert (run es answered = Some (after es answered)) as H2
    by (vm_compute; reflexivity).
  exact (conj H0 (conj H1 (conj H2
           (settlement_final 0 _ es answered _ H0 H1 H2)))).
Defined.

(** ** Time, entries and timers along a run *)

Lemma timely_constructor h p : timely (constructor h p).
Proof.
  split; simpl.
  - intros t Ht. by apply elem_of_nil in Ht.
  - intros t Ht. by apply elem_of_nil in Ht.
  - intros a q Hq. by rewrite lookup_empty in Hq.
Qed.

(** Whatever keeps callbacks, promises and clock, and queues nothing but
    one more keep-alive interval, keeps the client timely. *)
Lemma timely_same c c' (extra : list timer) :
  responseCallbacks c' = responseCallbacks c →
  promises c' = promises c →
  clock c' = clock c →
  timers c' = timers c ++ extra →
  Forall (λ t, clock c ≤ due t ∧ callback t = KeepAlive ∧ period t = Some 9000)
         extra →
  timely c → timely c'.
Proof.
  intros Hcb Hp Hclk Htm Hextra [Hdue Hkind Hentry].
  rewrite Forall_forall in Hextra. split.
  - intros t. rewrite Htm, Hclk. intros [Ht|Ht]%elem_of_app; [by apply Hdue|].
    by destruct (Hextra t Ht).
  - intros t. rewrite Htm, Hclk. intros [Ht|Ht]%elem_of_app; [by apply Hkind|].
    destruct (Hextra t Ht) as (_ & -> & Hper). done.
  - intros a p. rewrite Hcb, Hp. intros Hap.
    destruct (Hentry a p Hap) as [Hpend (t & Ht & Hcbt)]. split; [done|].
    exists t. split; [|done]. rewrite Htm. apply elem_of_app. by left.
Qed.

Lemma timely_sendAndReceive a args0 c :
  timely c → timely (sendAndReceive a args0 c).2.
Proof.
  intros [Hdue Hkind Hentry]. split.
  - intros t. rewrite sendAndReceive_timers, sendAndReceive_clock.
    intros [Ht| ->%list_elem_of_singleton]%elem_of_app; [by apply Hdue|].
    simpl. lia.
  - intros t. rewrite sendAndReceive_timers, sendAndReceive_clock.
    intros [Ht| ->%list_elem_of_singleton]%elem_of_app; [by apply Hkind|].
    simpl. split; [done|lia].
  - intros b p. rewrite sendAndReceive_responseCallbacks,
      sendAndReceive_promises, sendAndReceive_timers.
    intros [[<- <-]|[Hne Hp]]%lookup_insert_Some.
    + split; [by rewrite lookup_app_r, Nat.sub_diag|].
      eexists. split; [apply elem_of_app; right; by apply list_elem_of_singleton|].
      done.
    + destruct (Hentry b p Hp) as [Hpend (t & Ht & Hcbt)]. split.
      * rewrite lookup_app_l; [done|]. by eapply lookup_lt_Some.
      * exists t. split; [|done]. apply elem_of_app. by left.
Qed.

Lemma timely_onMessage m c : wf c → timely c → timely (onMessage m c).
Proof.
  intros Hwf Htl. unfold onMessage.
  destruct (responseCallbacks c !! address m) as [p|] eqn:Hcb; [|done].
  destruct (args m) as [|v vs]; [done|].
  destruct Htl as [Hdue Hkind Hentry]. split; simpl.
  - intros t. rewrite settle_timers, settle_clock. apply Hdue.
  - intros t. rewrite settle_timers, settle_clock. apply Hkind.
  - intros b q. rewrite settle_responseCallbacks, settle_timers.
    intros [Hne Hq]%lookup_delete_Some.
    destruct (Hentry b q Hq) as [Hpend Htq]. split; [|done].
    rewrite settle_other; [done|]. intros ->. apply Hne.
    by eapply (wf_inj c Hwf).
Qed.

Lemma timely_tick c c' : wf c → timely c → tick c = Some c' → timely c'.
Proof.
  intros Hwf [Hdue Hkind Hentry]. unfold tick.
  destruct (next_timer (timers c)) as [[t rest]|] eqn:Hn; [|done].
  intros <-%(inj Some).
  pose proof (next_timer_perm _ _ _ Hn) as Hperm.
  assert (t ∈ timers c) as Hint by (rewrite Hperm; apply elem_of_cons; by left).
  assert (∀ u, u ∈ rest → u ∈ timers c) as Hrest
    by (intros u Hu; rewrite Hperm; apply elem_of_cons; by right).
  pose proof (Hdue t Hint) as Hduet.
  pose proof (Hkind t Hint) as Hkindt.
  assert (∀ u, u ∈ rest ++ rearm t →
            Z.max (clock c) (due t) ≤ due u
            ∧ match callback u with
              | KeepAlive => period u = Some 9000
              | TimeoutCheck _ _ =>
                  period u = None ∧ due u ≤ Z.max (clock c) (due t) + 1000
              end) as Hqueue.
  { intros u [Hu|Hu]%elem_of_app.
    - pose proof (next_timer_least _ _ _ u Hn (Hrest u Hu)).
      pose proof (Hdue u (Hrest u Hu)). pose proof (Hkind u (Hrest u Hu)) as Hk.
      split; [lia|]. destruct (callback u); [|done]. split; [apply Hk|].
      destruct Hk. lia.
    - unfold rearm in Hu. destruct (callback t) as [a q|] eqn:Hcbt.
      + destruct Hkindt as [Hper _]. rewrite Hper in Hu. by apply elem_of_nil in Hu.
      + rewrite Hkindt in Hu. apply list_elem_of_singleton in Hu as ->.
        simpl. split; [lia|done]. }
  assert (∀ b p, responseCallbacks c !! b = Some p →
            callback t ≠ TimeoutCheck b p →
            ∃ u, u ∈ rest ++ rearm t ∧ callback u = TimeoutCheck b p) as Hkeep.
  { intros b p Hbp Hne. destruct (Hentry b p Hbp) as [_ (u & Hu & Hcbu)].
    exists u. split; [|done]. apply elem_of_app. left.
    rewrite Hperm in Hu. apply elem_of_cons in Hu as [->|Hu]; [|done].
    by destruct Hne. }
  split.
  - intros u. rewrite run_callback_timers, run_callback_clock. simpl.
    intros Hu. by apply Hqueue.
  - intros u. rewrite run_callback_timers, run_callback_clock. simpl.
    intros Hu. by apply Hqueue.
  - intros b p. rewrite run_callback_timers. simpl.
    destruct (callback t) as [a q|] eqn:Hcbt; simpl.
    + destruct (decide (is_Some (responseCallbacks c !! a))) as [Hsome|Hnone].
      * rewrite settle_responseCallbacks. simpl.
        intros [Hne Hbp]%lookup_delete_Some.
        destruct (Hentry b p Hbp) as [Hpend _].
        destruct (wf_timer c Hwf t a q Hint Hcbt) as [_ Hone]. split.
        -- rewrite settle_other; [done|]. intros ->. apply Hne. symmetry.
           by apply Hone.
        -- apply Hkeep; [done|]. congruence.
      * simpl. intros Hbp. destruct (Hentry b p Hbp) as [Hpend _].
        split; [done|]. apply Hkeep; [done|]. intros [= -> ->].
        apply Hnone. by exists p.
    + rewrite sendCommand_responseCallbacks, sendCommand_promises. simpl.
      intros Hbp. destruct (Hentry b p Hbp) as [Hpend _].
      split; [done|]. by apply Hkeep.
Qed.

Lemma timely_step e c c' : wf c → timely c → step e c = Some c' → timely c'.
Proof.
  intros Hwf Htl. destruct e as [err|a args0|a args0|m| |ms|]; cbn [step].
  - intros <-%(inj Some). destruct err as [e|]; [done|].
    revert Htl.
    apply (timely_same _ _ [mkTimer (clock c + 9000) (Some 9000) KeepAlive]);
      [done..|].
    apply Forall_singleton. simpl. split; [lia|done].
  - intros <-%(inj Some). by apply timely_sendAndReceive.
  - intros <-%(inj Some). revert Htl. apply (timely_same _ _ []).
    + by rewrite sendCommand_responseCallbacks.
    + by rewrite sendCommand_promises.
    + by rewrite sendCommand_clock.
    + by rewrite sendCommand_timers, app_nil_r.
    + apply Forall_nil_2.
  - intros <-%(inj Some). by apply timely_onMessage.
  - by apply timely_tick.
  - unfold sleep. destruct (decide _) as [[Hms Hall]|]; [|done].
    intros <-%(inj Some). destruct Htl as [Hdue Hkind Hentry].
    rewrite Forall_forall in Hall. split; simpl.
    + done.
    + intros t Ht. pose proof (Hkind t Ht) as Hk.
      destruct (callback t); [|done]. destruct Hk. split; [done|lia].
    + done.
  - intros <-%(inj Some). revert Htl. apply (timely_same _ _ []); simpl;
      [done..|by rewrite app_nil_r|apply Forall_nil_2].
Qed.

Lemma timely_run es c c' :
  wf c → timely c → run es c = Some c' → timely c'.
Proof.
  revert c. induction es as [|e es IH]; intros c Hwf Htl; simpl.
  - by intros [= <-].
  - destruct (step e c) as [c1|] eqn:Hs; [|done]. simpl.
    apply IH; [by eapply wf_step|by eapply timely_step].
Qed.

(** X6.  In every state a new client can reach, each stored callback
    belongs to a promise that is still pending, and the timeout of that
    very call is still queued, as a one-shot timer that is not overdue
    and is due within 1000 ms: no entry of the callback map outlives the
    second it was made for, and none refers to a settled call. *)
Theorem entries_are_live
    (h : string) (p : Z) (es : list event) (c : OSCClient)
    (a : string) (pid : nat) :
  run es (constructor h p) = Some c →
  responseCallbacks c !! a = Some pid →
  promises c !! pid = Some Pending
  ∧ ∃ t, t ∈ timers c ∧ callback t = TimeoutCheck a pid ∧ period t = None
         ∧ clock c ≤ due t ∧ due t ≤ clock c + 1000.
Proof.
  intros Hrun Hcb.
  pose proof (timely_run es _ c (wf_constructor h p) (timely_constructor h p) Hrun)
    as [Hdue Hkind Hentry].
  destruct (Hentry a pid Hcb) as [Hpend (t & Ht & Hcbt)]. split; [done|].
  exists t. pose proof (Hkind t Ht) as Hk. rewrite Hcbt in Hk.
  destruct Hk as [Hper Hle].
  exact (conj Ht (conj Hcbt (conj Hper (conj (Hdue t Ht) Hle)))).
Qed.

Lemma entries_are_live_witness :
  let es := [Connect None; Issue "/info" []; Sleep 300;
             Issue "/ch/01/mix/fader" []; Sleep 700; Tick] in
  run es fresh = Some (after es fresh)
  ∧ responseCallbacks (after es fresh) !! "/ch/01/mix/fader" = Some 1%nat
  ∧ promises (after es fresh) !! 1%nat = Some Pending
  ∧ ∃ t, t ∈ timers (after es fresh)
         ∧ callback t = TimeoutCheck "/ch/01/mix/fader" 1 ∧ period t = None
         ∧ clock (after es fresh) ≤ due t
         ∧ due t ≤ clock (after es fresh) + 1000.
Proof.
  intros es.
  assert (run es fresh = Some (after es fresh)) as Hrun by (vm_compute; reflexivity).
  assert (responseCallbacks (after es fresh) !! "/ch/01/mix/fader" = Some 1%nat)
    as Hcb by (vm_compute; reflexivity).
  destruct (entries_are_live _ _ es _ "/ch/01/mix/fader" 1 Hrun Hcb) as [Hp Ht].
  exact (conj Hrun (conj Hcb (conj Hp Ht))).
Defined.

Lemma keepalives_app c (ts : list timer) :
  length (filter (λ t, is_keepalive t = true) (timers c ++ ts))
  = (keepalives c + length (filter (λ t, is_keepalive t = true) ts))%nat.
Proof. by rewrite filter_app, length_app. Qed.

Lemma keepalives_tick c c' :
  timely c → tick c = Some c' → keepalives c' = keepalives c.
Proof.
  intros [_ Hkind _]. unfold tick.
  destruct (next_timer (timers c)) as [[t rest]|] eqn:Hn; [|done].
  intros <-%(inj Some). unfold keepalives. rewrite run_callback_timers. simpl.
  pose proof (next_timer_perm _ _ _ Hn) as Hperm.
  assert (t ∈ timers c) as Hint by (rewrite Hperm; apply elem_of_cons; by left).
  pose proof (Hkind t Hint) as Hk.
  rewrite Hperm, filter_app, length_app, filter_cons.
  destruct (callback t) as [a q|] eqn:Hcb.
  - assert (is_keepalive t = false) as Hka by (unfold is_keepalive; by rewrite Hcb).
    assert (rearm t = []) as -> by (unfold rearm; by destruct Hk as [-> _]).
    rewrite decide_False by (by rewrite Hka). simpl. lia.
  - assert (is_keepalive t = true) as Hka by (unfold is_keepalive; by rewrite Hcb).
    assert (rearm t = [mkTimer (due t + 9000) (Some 9000) KeepAlive]) as ->
      by (unfold rearm; by rewrite Hk, Hcb).
    rewrite decide_True by done. simpl. lia.
Qed.

Lemma keepalives_step e c c' :
  timely c → step e c = Some c' →
  keepalives c'
  = (keepalives c + (if is_successful_connect e then 1 else 0))%nat.
Proof.
  intros Htl. destruct e as [err|a args0|a args0|m| |ms|]; cbn [step].
  - intros <-%(inj Some). destruct err as [e|]; simpl; [lia|].
    unfold keepalives at 1. simpl. rewrite keepalives_app. done.
  - intros <-%(inj Some). unfold keepalives at 1.
    rewrite sendAndReceive_timers, keepalives_app. simpl. lia.
  - intros <-%(inj Some). unfold keepalives.
    rewrite sendCommand_timers. simpl. lia.
  - intros <-%(inj Some). unfold keepalives.
    rewrite onMessage_timers. simpl. lia.
  - intros Ht. rewrite (keepalives_tick c c' Htl Ht). simpl. lia.
  - unfold sleep. destruct (decide _); [|done]. intros <-%(inj Some).
    unfold keepalives. simpl. lia.
  - intros <-%(inj Some). unfold keepalives. simpl. lia.
Qed.

Lemma keepalives_run es c c' :
  wf c → timely c → run es c = Some c' →
  keepalives c' = (keepalives c + successful_connects es)%nat.
Proof.
  revert c. induction es as [|e es IH]; intros c Hwf Htl; simpl.
  - intros [= <-]. unfold successful_connects. simpl. lia.
  - destruct (step e c) as [c1|] eqn:Hs; [|done]. simpl. intros Hrun.
    rewrite (IH c1 (wf_step _ _ _ Hwf Hs) (timely_step _ _ _ Hwf Htl Hs) Hrun).
    rewrite (keepalives_step e c c1 Htl Hs).
    unfold successful_connects. rewrite filter_cons.
    destruct (is_successful_connect e) eqn:He.
    + rewrite decide_True by done. simpl. lia.
    + rewrite decide_False by done. lia.
Qed.

(** X7.  The keep-alive interval is never removed.  After any run from
    a new client in which [connect] succeeded at most once (with osc-js
    it cannot succeed twice), the number of keep-alive intervals in the
    timer queue is the number of [connect] calls that succeeded: none
    before, and one ever after, whatever follows; [close] does not
    remove it, and a [connect] that fails adds none. *)
Theorem keepalives_count
    (h : string) (p : Z) (es : list event) (c : OSCClient) :
  (successful_connects es ≤ 1)%nat →
  run es (constructor h p) = Some c →
  keepalives c = successful_connects es
  ∧ (keepalives c ≤ 1)%nat
  ∧ ∀ es1 es2, es = es1 ++ Connect None :: es2 → keepalives c = 1%nat.
Proof.
  intros Hone Hrun.
  assert (keepalives c = successful_connects es) as Hk
    by (by rewrite (keepalives_run es _ c (wf_constructor h p)
                      (timely_constructor h p) Hrun)).
  split; [done|]. split; [lia|].
  intros es1 es2 Hes. rewrite Hk. revert Hone. rewrite Hes.
  unfold successful_connects. rewrite filter_app, length_app, filter_cons.
  rewrite decide_True by done. simpl. lia.
Qed.

Lemma keepalives_count_witness :
  let es := [Connect None; Tick; Close; Connect (Some "Not running"); Tick] in
  (successful_connects es ≤ 1)%nat
  ∧ run es fresh = Some (after es fresh)
  ∧ keepalives (after es fresh) = 1%nat
  ∧ isConnected (after es fresh) = false
  ∧ clock (after es fresh) = 18000.
Proof.
  intros es.
  assert (successful_connects es ≤ 1)%nat as Hone by (vm_compute; lia).
  assert (run es fresh = Some (after es fresh)) as Hrun by (vm_compute; reflexivity).
  destruct (keepalives_count _ _ es _ Hone Hrun) as (_ & _ & Hk).
  refine (conj Hone (conj Hrun (conj (Hk [] _ eq_refl) _))).
  split; vm_compute; reflexivity.
Defined.

(** X8.  A timeout is never cleared, and when it fires it looks only at
    the address.  If the timeout of a call that is already settled is
    the next timer while another call is pending on the same address,
    the entry of that other call is removed and no promise changes: the
    other call stays pending, a reply for the address is dropped from
    then on, and the timeout of the other call itself will find nothing
    to do. *)
Theorem stale_timeout_removes_entry
    (a : string) (p q : nat) (s : settlement) (d : Z) (rest : list timer)
    (c : OSCClient) :
  next_timer (timers c) = Some (mkTimer d None (TimeoutCheck a p), rest) →
  promises c !! p = Some s → s ≠ Pending →
  registered a q c →
  ∃ c', tick c = Some c'
        ∧ responseCallbacks c' !! a = None
        ∧ promises c' = promises c
        ∧ promises c' !! q = Some Pending
        ∧ timers c' = rest
        ∧ (∀ m, address m = a → onMessage m c' = c')
        ∧ run_callback (TimeoutCheck a q) c' = c'.
Proof.
  intros Hn Hp Hs [Hcb Hq]. unfold tick. rewrite Hn. eexists. split; [done|].
  cbn [callback run_callback]. simpl.
  rewrite decide_True by (by exists q).
  assert (∀ c0, promises c0 !! p = Some s →
                settle p (Rejected (timeout_message a)) c0 = c0) as Hnop.
  { intros c0 Hp0. unfold settle. rewrite Hp0. by destruct s. }
  rewrite Hnop by done. simpl. rewrite app_nil_r.
  split; [apply lookup_delete_eq|]. split; [done|]. split; [done|].
  split; [done|]. split.
  - intros m Hm. apply onMessage_unregistered. rewrite Hm. simpl.
    apply lookup_delete_eq.
  - rewrite decide_False; [done|]. simpl. rewrite lookup_delete_eq.
    by intros [? ?].
Qed.

Lemma stale_timeout_removes_entry_witness :
  let c := (sendAndReceive "/info" [] answered).2 in
  next_timer (timers c)
  = Some (mkTimer 1000 None (TimeoutCheck "/info" 0),
          [mkTimer 9000 (Some 9000) KeepAlive;
           mkTimer 1500 None (TimeoutCheck "/info" 1)])
  ∧ promises c !! 0%nat = Some (Fulfilled (VStr "X32"))
  ∧ registered "/info" 1 c
  ∧ ∃ c', tick c = Some c'
          ∧ responseCallbacks c' !! "/info" = None
          ∧ promises c' !! 1%nat = Some Pending.
Proof.
  intros c.
  assert (next_timer (timers c)
          = Some (mkTimer 1000 None (TimeoutCheck "/info" 0),
                  [mkTimer 9000 (Some 9000) KeepAlive;
                   mkTimer 1500 None (TimeoutCheck "/info" 1)])) as Hn
    by (vm_compute; reflexivity).
  assert (promises c !! 0%nat = Some (Fulfilled (VStr "X32"))) as Hp
    by (vm_compute; reflexivity).
  assert (Fulfilled (VStr "X32") ≠ Pending) as Hs by done.
  assert (registered "/info" 1 c) as Hreg by (split; vm_compute; reflexivity).
  destruct (stale_timeout_removes_entry "/info" 0 1 _ 1000 _ c Hn Hp Hs Hreg)
    as (c' & Ht & Hcb & _ & Hq & _).
  refine (conj Hn (conj Hp (conj Hreg _))).
  exists c'. exact (conj Ht (conj Hcb Hq)).
Defined.

(** ** Setters, getters and what the mixer echoes *)

(** A reply that echoes the datagram a setter has just sent resolves the
    getter on the same address with the first argument of that datagram. *)
Lemma echo_resolves a args0 v vs c m :
  isConnected c = true →
  last (outbox (async_command a (v :: vs) c).2) = Some m →
  promises (onMessage m (sendAndReceive a args0 (async_command a (v :: vs) c).2).2)
    !! (sendAndReceive a args0 (async_command a (v :: vs) c).2).1
  = Some (Fulfilled v).
Proof.
  intros Hc. rewrite async_command_connected by done.
  set (c1 := osc_send (mkMessage a (v :: vs)) c).
  change (outbox (Fulfilled VUndefined, c1).2)
    with (outbox c ++ [mkMessage a (v :: vs)]).
  rewrite last_snoc. intros <-%(inj Some).
  by apply (onMessage_match a _ _ _ v vs (sendAndReceive_registered a args0 c1)).
Qed.

(** X9.  The boolean controls that have a getter round-trip through the
    mixer: when the mixer echoes what [muteChannel], [setSolo] or
    [setTalkback] has just sent, the matching getter returns the boolean
    that was set, although mute is sent as 0 and the other two as 1. *)
Theorem boolean_round_trip (channel : nat) (b : bool) (c : OSCClient) :
  isConnected c = true →
  (∀ m, last (outbox (muteChannel channel b c).2) = Some m →
        let call := getMute channel (muteChannel channel b c).2 in
        getMute_result call.1 (onMessage m call.2) = Some (inl b))
  ∧ (∀ m, last (outbox (setSolo channel b c).2) = Some m →
          let call := getSolo channel (setSolo channel b c).2 in
          getSolo_result call.1 (onMessage m call.2) = Some (inl b))
  ∧ (∀ m, last (outbox (setTalkback b c).2) = Some m →
          let call := getTalkback (setTalkback b c).2 in
          getTalkback_result call.1 (onMessage m call.2) = Some (inl b)).
Proof.
  intros Hc. split; [|split]; intros m Hm call.
  - unfold getMute_result, call, getMute, muteChannel in *.
    rewrite (echo_resolves _ [] _ [] c m Hc Hm). by destruct b.
  - unfold getSolo_result, call, getSolo, setSolo in *.
    rewrite (echo_resolves _ [] _ [] c m Hc Hm). by destruct b.
  - unfold getTalkback_result, call, getTalkback, setTalkback in *.
    rewrite (echo_resolves _ [] _ [] c m Hc Hm). by destruct b.
Qed.

Lemma boolean_round_trip_witness :
  let c := (muteChannel 3 true connected).2 in
  let m := mkMessage "/ch/03/mix/on" [VNum 0%float] in
  isConnected connected = true
  ∧ last (outbox c) = Some m
  ∧ getMute_result (getMute 3 c).1 (onMessage m (getMute 3 c).2)
    = Some (inl true).
Proof.
  intros c m.
  assert (last (outbox c) = Some m) as Hm by (vm_compute; reflexivity).
  destruct (boolean_round_trip 3 true connected eq_refl) as (Hmute & _).
  exact (conj eq_refl (conj Hm (Hmute m Hm))).
Defined.



(** X12.  For a scene number [scene] such that [scene] and [scene - 1]
    are safe integers: [saveScene] with an empty name does what
    [saveScene] without a name does.  On a connected client, [saveScene]
    with a proper name
    sends the store command with the scene index less one and then the
    name to the name path of that scene; [getSceneName] asks on the same
    path, so an echo of the name resolves it with the name.  The index
    in the path is the scene number less one in three digits; for scene 0
    it is the text "0-1". *)
Theorem saveScene_name (scene : Z) (name : string) (c : OSCClient) :
  safe_integer scene → safe_integer (scene - 1) →
  saveScene scene (Some "") c = saveScene scene None c
  ∧ (isConnected c = true → name ≠ "" →
     outbox (saveScene scene (Some name) c).2
     = outbox c ++ [mkMessage "/-snap/store" [VNum (float_of_Z (scene - 1))];
                    mkMessage (scene_name_path scene) [VStr name]]
     ∧ outbox (saveScene scene None c).2
       = outbox c ++ [mkMessage "/-snap/store" [VNum (float_of_Z (scene - 1))]]
     ∧ outbox (recallScene scene c).2
       = outbox c ++ [mkMessage "/-snap/load" [VNum (float_of_Z (scene - 1))]]
     ∧ ∀ m, last (outbox (saveScene scene (Some name) c).2) = Some m →
         let call := getSceneName scene (saveScene scene (Some name) c).2 in
         promises (onMessage m call.2) !! call.1 = Some (Fulfilled (VStr name)))
  ∧ (scene_name_path 1, scene_name_path 100, scene_name_path 0)
    = ("/-snap/000/name", "/-snap/099/name", "/-snap/0-1/name").
Proof.
  intros _ _. split; [|split; [|vm_compute; reflexivity]].
  - unfold saveScene. by destruct (sendCommand _ _ c) as [[|e] c'].
  - intros Hc Hname.
    assert (∀ a args0, sendCommand a args0 c
                       = (Returned, osc_send (mkMessage a args0) c)) as Hsend
      by (intros a args0; unfold sendCommand; by rewrite Hc).
    unfold saveScene, recallScene. rewrite !Hsend.
    rewrite decide_False by done.
    rewrite !async_command_connected by done.
    set (c1 := osc_send _ (osc_send _ c)).
    assert (outbox c1
            = outbox c ++ [mkMessage "/-snap/store" [VNum (float_of_Z (scene - 1))];
                           mkMessage (scene_name_path scene) [VStr name]]) as Hout
      by (unfold c1; simpl; by rewrite <- app_assoc).
    assert (last (outbox c1)
            = Some (mkMessage (scene_name_path scene) [VStr name])) as Hlast
      by (unfold c1; simpl; apply last_snoc).
    split; [done|]. split; [done|]. split; [done|].
    intros m. change ((Fulfilled VUndefined, c1).2) with c1.
    rewrite Hlast. intros <-%(inj Some). cbv zeta.
    by apply (onMessage_match _ _ _ _ (VStr name) []
                (sendAndReceive_registered (scene_name_path scene) [] c1)).
Qed.

Lemma saveScene_name_witness :
  safe_integer 5 ∧ safe_integer (5 - 1)
  ∧ isConnected connected = true
  ∧ outbox (saveScene 5 (Some "Intro") connected).2
    = outbox connected ++ [mkMessage "/-snap/store" [VNum (float_of_Z (5 - 1))];
                           mkMessage (scene_name_path 5) [VStr "Intro"]]
  ∧ float_of_Z (5 - 1) = 4%float
  ∧ scene_name_path 5 = "/-snap/004/name".
Proof.
  assert (safe_integer 5) as H5 by (unfold safe_integer, MAX_SAFE_INTEGER; lia).
  assert (safe_integer (5 - 1)) as H4
    by (unfold safe_integer, MAX_SAFE_INTEGER; lia).
  destruct (saveScene_name 5 "Intro" connected H5 H4) as (_ & Hsend & _).
  destruct (Hsend eq_refl) as (Hout & _); [done|].
  refine (conj H5 (conj H4 (conj eq_refl (conj Hout _)))).
  split; vm_compute; reflexivity.
Defined.

(** X14.  [getChannelMeter] asks on the address [getFader] asks on.  A
    meter request made while a fader request for the same channel is
    pending takes its place: the reply resolves the meter request, and
    the fader request stays pending with no callback stored for it. *)
Theorem getChannelMeter_takes_over
    (channel : nat) (c : OSCClient) (m : Message) (v : value) (vs : list value) :
  let fader := getFader channel c in
  let meter := getChannelMeter channel fader.2 in
  address m = getChannelPath channel +:+ "/mix/fader" → args m = v :: vs →
  registered (getChannelPath channel +:+ "/mix/fader") meter.1 meter.2
  ∧ meter.1 = S fader.1
  ∧ promises (onMessage m meter.2) !! meter.1 = Some (Fulfilled v)
  ∧ promises (onMessage m meter.2) !! fader.1 = Some Pending
  ∧ responseCallbacks (onMessage m meter.2)
    = delete (getChannelPath channel +:+ "/mix/fader") (responseCallbacks c).
Proof.
  intros fader meter Ha Hargs.
  set (a := getChannelPath channel +:+ "/mix/fader") in *.
  pose proof (sendAndReceive_registered a [] fader.2) as Hreg.
  fold meter in Hreg. change (getChannelMeter channel fader.2) with meter in Hreg.
  assert (meter.1 = S fader.1) as Hpid.
  { unfold meter, getChannelMeter. rewrite sendAndReceive_pid.
    unfold fader, getFader. rewrite sendAndReceive_promises, length_app.
    simpl. lia. }
  split; [done|]. split; [done|].
  rewrite (onMessage_registered a meter.1 meter.2 m v vs Hreg Ha Hargs).
  unfold set_responseCallbacks, set_promises. cbn [promises responseCallbacks].
  split; [|split].
  - apply list_lookup_insert_eq. eapply lookup_lt_Some, Hreg.
  - rewrite list_lookup_insert_ne by (rewrite Hpid; lia).
    unfold meter, getChannelMeter. rewrite sendAndReceive_promises.
    pose proof (sendAndReceive_registered a [] c) as [_ Hp].
    rewrite lookup_app_l; [done|]. by eapply lookup_lt_Some.
  - unfold meter, getChannelMeter. rewrite sendAndReceive_responseCallbacks.
    unfold fader, getFader. rewrite sendAndReceive_responseCallbacks.
    fold a. by rewrite insert_insert_eq, delete_insert_eq.
Qed.

Lemma getChannelMeter_takes_over_witness :
  let m := mkMessage "/ch/01/mix/fader" [VNum 0.5%float] in
  address m = getChannelPath 1 +:+ "/mix/fader"
  ∧ args m = [VNum 0.5%float]
  ∧ promises (onMessage m (getChannelMeter 1 (getFader 1 connected).2).2)
      !! (getChannelMeter 1 (getFader 1 connected).2).1
    = Some (Fulfilled (VNum 0.5%float))
  ∧ promises (onMessage m (getChannelMeter 1 (getFader 1 connected).2).2)
      !! (getFader 1 connected).1
    = Some Pending.
Proof.
  intros m.
  assert (address m = getChannelPath 1 +:+ "/mix/fader") as Ha
    by (vm_compute; reflexivity).
  destruct (getChannelMeter_takes_over 1 connected m _ [] Ha eq_refl)
    as (_ & _ & Hmeter & Hfader & _).
  exact (conj Ha (conj eq_refl (conj Hmeter Hfader))).
Defined.

(** ** Ranges of the encoders *)

(** X10.  Over the rationals each encoder maps exactly its documented
    range onto the wire range from 0 to 1, and keeps the order: the wire
    value lies between 0 and 1 if and only if the input lies in the
    range (pan -1..1, EQ gain -15..15 dB, gate threshold -80..0 dB,
    compressor threshold -60..0 dB, compressor ratio 1..20), and a larger
    input gives a larger wire value.  On a connected client
    [setCompressor], when neither encoded value is NaN, sends the encoded
    threshold and then the encoded ratio. *)
Theorem encoders_range :
  (∀ x : Q,
     (0 <= setPan_wire x <= 1 ↔ -1 <= x <= 1)
     ∧ (0 <= setEQ_wire x <= 1 ↔ -15 <= x <= 15)
     ∧ (0 <= setGate_wire x <= 1 ↔ -80 <= x <= 0)
     ∧ (0 <= setCompressor_threshold_wire x <= 1 ↔ -60 <= x <= 0)
     ∧ (0 <= setCompressor_ratio_wire x <= 1 ↔ 1 <= x <= 20))%Q
  ∧ (∀ x y : Q, x < y →
       setPan_wire x < setPan_wire y
       ∧ setEQ_wire x < setEQ_wire y
       ∧ setGate_wire x < setGate_wire y
       ∧ setCompressor_threshold_wire x < setCompressor_threshold_wire y
       ∧ setCompressor_ratio_wire x < setCompressor_ratio_wire y)%Q
  ∧ (∀ channel threshold ratio c, isConnected c = true →
       safe_index channel →
       encodable (VNum (setCompressor_threshold_wire threshold)) = true →
       encodable (VNum (setCompressor_ratio_wire ratio)) = true →
       outbox (setCompressor channel threshold ratio c).2
       = outbox c
         ++ [mkMessage (getChannelPath channel +:+ "/dyn/thr")
               [VNum (setCompressor_threshold_wire threshold)];
             mkMessage (getChannelPath channel +:+ "/dyn/ratio")
               [VNum (setCompressor_ratio_wire ratio)]])
  ∧ (setCompressor_threshold_wire (-60)%float, setCompressor_threshold_wire 0%float,
     setCompressor_ratio_wire 1%float, setCompressor_ratio_wire 20%float)
    = (0%float, 1%float, 0%float, 1%float).
Proof.
  split; [|split; [|split; [|done]]].
  - intros x. unfold setPan_wire, setEQ_wire, setGate_wire,
      setCompressor_threshold_wire, setCompressor_ratio_wire. simpl.
    repeat split; intros; unfold inject_Z, Qdiv, Qinv in *;
      cbn [Qnum Qden] in *; lra.
  - intros x y Hxy. unfold setPan_wire, setEQ_wire, setGate_wire,
      setCompressor_threshold_wire, setCompressor_ratio_wire. simpl.
    unfold inject_Z, Qdiv, Qinv; cbn [Qnum Qden]; repeat split; lra.
  - intros channel threshold ratio c Hc _ _ _. unfold setCompressor, sendCommand.
    rewrite Hc. rewrite async_command_connected by done. simpl.
    by rewrite <- app_assoc.
Qed.

(** ** Send slots *)

Lemma string_length_app (s t : string) :
  String.length (s +:+ t) = (String.length s + String.length t)%nat.
Proof.
  induction s as [|a s IH]; [done|].
  change (S (String.length (s +:+ t)) = S (String.length s + String.length t)).
  by rewrite IH.
Qed.

Lemma string_app_inj_r (s1 s2 t : string) : s1 +:+ t = s2 +:+ t → s1 = s2.
Proof.
  revert s2. induction s1 as [|a s1 IH]; intros [|b s2] Heq; [done|..].
  - change (t = String b (s2 +:+ t)) in Heq.
    apply (f_equal String.length) in Heq. simpl in Heq.
    rewrite string_length_app in Heq. lia.
  - change (String a (s1 +:+ t) = t) in Heq.
    apply (f_equal String.length) in Heq. simpl in Heq.
    rewrite string_length_app in Heq. lia.
  - change (String a (s1 +:+ t) = String b (s2 +:+ t)) in Heq.
    injection Heq as -> Heq. f_equal. by apply IH.
Qed.

Lemma send_slot_inj (channel n m : nat) :
  getChannelPath channel +:+ "/mix/" +:+ padStart 2 "0" (pretty n) +:+ "/level"
  = getChannelPath channel +:+ "/mix/" +:+ padStart 2 "0" (pretty m) +:+ "/level" →
  n = m.
Proof.
  intros Heq. apply (inj (String.app _)), (inj (String.app _)) in Heq.
  by apply string_app_inj_r, padStart_2_pretty_inj in Heq.
Qed.

Lemma snoc_message_inj (l : list Message) (a b : string) (args1 args2 : list value) :
  l ++ [mkMessage a args1] = l ++ [mkMessage b args2] → a = b.
Proof. intros Heq%(inj (app l)). by injection Heq. Qed.

(** X13.  For a level that is not NaN and channel and slot numbers up
    to [Number.MAX_SAFE_INTEGER]: the sends of a channel are numbered
    slots under ["/ch/NN/mix/"].  [sendToBus] writes slot [bus], [sendToAux] slot
    [aux + 15] and [sendToMatrix] slot [matrix + 22]; different slots are
    different addresses.  So on a connected client an aux send and a
    matrix send write the same datagram exactly when the aux number is
    the matrix number plus 7, and aux 1 writes what bus 16 writes. *)
Theorem send_slots
    (channel aux matrix bus bus' : nat) (level : float) (c : OSCClient) :
  isConnected c = true →
  PrimFloat.is_nan level = false →
  safe_index channel → safe_index bus → safe_index bus' →
  safe_index (aux + 15) → safe_index (matrix + 22) →
  sendToAux channel aux level c = sendToBus channel (aux + 15) level c
  ∧ sendToMatrix channel matrix level c = sendToBus channel (matrix + 22) level c
  ∧ (outbox (sendToBus channel bus level c).2
     = outbox (sendToBus channel bus' level c).2 ↔ bus = bus')
  ∧ (outbox (sendToAux channel aux level c).2
     = outbox (sendToMatrix channel matrix level c).2 ↔ aux = (matrix + 7)%nat).
Proof.
  intros Hc _ _ _ _ _ _. split; [done|]. split; [done|].
  assert (∀ n m, outbox (sendToBus channel n level c).2
                 = outbox (sendToBus channel m level c).2 ↔ n = m) as Hslot.
  { intros n m. split; [|by intros ->].
    unfold sendToBus. rewrite !async_command_connected by done.
    intros Heq. apply (send_slot_inj channel). revert Heq.
    apply snoc_message_inj. }
  split; [apply Hslot|].
  change (sendToAux channel aux level c)
    with (sendToBus channel (aux + 15) level c).
  change (sendToMatrix channel matrix level c)
    with (sendToBus channel (matrix + 22) level c).
  rewrite Hslot. lia.
Qed.

Lemma send_slots_witness :
  isConnected connected = true
  ∧ PrimFloat.is_nan 0.5%float = false
  ∧ (safe_index 1 ∧ safe_index 0 ∧ safe_index (8 + 15) ∧ safe_index (1 + 22))
  ∧ outbox (sendToAux 1 8 0.5%float connected).2
    = outbox (sendToMatrix 1 1 0.5%float connected).2
  ∧ outbox (sendToAux 1 8 0.5%float connected).2
    = [mkMessage "/xcontrol" []; mkMessage "/ch/01/mix/23/level" [VNum 0.5%float]].
Proof.
  assert (∀ n, (n < 100)%nat → safe_index n) as Hs
    by (intros n Hn; unfold safe_index, MAX_SAFE_INTEGER; lia).
  assert (safe_index 1 ∧ safe_index 0 ∧ safe_index (8 + 15) ∧ safe_index (1 + 22))
    as Hsafe by (repeat split; apply Hs; simpl; lia).
  destruct Hsafe as (H1 & H0 & H23a & H23m).
  split; [reflexivity|]. split; [reflexivity|].
  split; [exact (conj H1 (conj H0 (conj H23a H23m)))|].
  destruct (send_slots 1 8 1 0 0 0.5%float connected eq_refl eq_refl
              H1 H0 H0 H23a H23m) as (_ & _ & _ & Hiff).
  split; [by apply Hiff|]. vm_compute; reflexivity.
Defined.

(** ** Status *)

Lemma settle_host_port pid s c :
  host (settle pid s c) = host c ∧ port (settle pid s c) = port c.
Proof. unfold settle. by destruct (promises c !! pid) as [[]|]. Qed.

Lemma sendAndReceive_host_port a args0 c :
  host (sendAndReceive a args0 c).2 = host c
  ∧ port (sendAndReceive a args0 c).2 = port c.
Proof.
  unfold sendAndReceive, exec. simpl. unfold sendCommand. simpl.
  by destruct (isConnected c).
Qed.

Lemma onMessage_host_port m c :
  host (onMessage m c) = host c ∧ port (onMessage m c) = port c.
Proof.
  unfold onMessage. destruct (responseCallbacks c !! address m); [|done].
  destruct (args m); [done|]. simpl. apply settle_host_port.
Qed.

Lemma tick_host_port c c' :
  tick c = Some c' → host c' = host c ∧ port c' = port c.
Proof.
  unfold tick. destruct (next_timer (timers c)) as [[t rest]|]; [|done].
  intros <-%(inj Some). destruct (callback t) as [a q|]; simpl.
  - destruct (decide _); [|done].
    destruct (settle_host_port q (Rejected (timeout_message a))
                (set_responseCallbacks (delete a (responseCallbacks c))
                   (set_clock (Z.max (clock c) (due t))
                      (set_timers (rest ++ rearm t) c)))) as [-> ->]. done.
  - unfold sendCommand. simpl. by destruct (isConnected c).
Qed.

Lemma step_host_port e c c' :
  step e c = Some c' → host c' = host c ∧ port c' = port c.
Proof.
  destruct e as [err|a args0|a args0|m| |ms|]; cbn [step].
  - intros <-%(inj Some). destruct err; [done|]. simpl. done.
  - intros <-%(inj Some). apply sendAndReceive_host_port.
  - intros <-%(inj Some). unfold sendCommand. by destruct (isConnected c).
  - intros <-%(inj Some). apply onMessage_host_port.
  - apply tick_host_port.
  - unfold sleep. destruct (decide _); [|done]. by intros <-%(inj Some).
  - by intros <-%(inj Some).
Qed.

Lemma run_host_port es c c' :
  run es c = Some c' → host c' = host c ∧ port c' = port c.
Proof.
  revert c. induction es as [|e es IH]; intros c; simpl.
  - by intros [= <-].
  - destruct (step e c) as [c1|] eqn:Hs; [|done]. simpl. intros Hrun.
    destruct (IH c1 Hrun) as [-> ->]. by apply (step_host_port e).
Qed.

Lemma onMessage_promises_length m c :
  length (promises (onMessage m c)) = length (promises c).
Proof.
  unfold onMessage. destruct (responseCallbacks c !! address m); [|done].
  destruct (args m); [done|]. simpl. apply settle_length.
Qed.

(** What an awaited call on [a] can come to after an undisturbed run: it
    is still pending; the firing of its timeout rejects it; a reply
    fulfils it. *)
Lemma awaited_call a pid es c c1 :
  wf c → registered a pid c →
  run es c = Some c1 → undisturbed a es c = true →
  wf c1
  ∧ promises c1 !! pid = Some Pending
  ∧ (host c1 = host c ∧ port c1 = port c)
  ∧ (∀ d rest c2,
       next_timer (timers c1) = Some (mkTimer d None (TimeoutCheck a pid), rest) →
       tick c1 = Some c2 →
       promises c2 !! pid = Some (Rejected (timeout_message a))
       ∧ host c2 = host c ∧ port c2 = port c)
  ∧ (∀ m v vs, address m = a → args m = v :: vs →
       promises (onMessage m c1) !! pid = Some (Fulfilled v)
       ∧ host (onMessage m c1) = host c ∧ port (onMessage m c1) = port c).
Proof.
  intros Hwf Hreg Hrun Hund.
  pose proof (registered_run _ _ _ _ _ Hwf Hreg Hund Hrun) as Hreg1.
  destruct (run_host_port _ _ _ Hrun) as [Hh Hp].
  split; [by eapply wf_run|]. split; [apply Hreg1|]. split; [done|]. split.
  - intros d rest c2 Hn Ht.
    destruct (tick_timeout a pid d rest c1 Hn (proj2 Hreg1)
                (ex_intro _ _ (proj1 Hreg1)))
      as (c2' & Ht' & _ & Hrej & _).
    rewrite Ht in Ht'. injection Ht' as <-.
    destruct (tick_host_port c1 c2 Ht) as [-> ->]. done.
  - intros m v vs Ha Hargs.
    destruct (onMessage_match a pid c1 m v vs Hreg1 Ha Hargs) as [Hful _].
    destruct (onMessage_host_port m c1) as [-> ->]. done.
Qed.

(** X15.  [getMixerStatus] on a well-formed client never fails.  It
    first asks ["/info"]; as long as nothing disturbs that call, nothing
    is returned.  If the call then times out, the result is the
    not-connected object with the host, the port and the timeout message
    for ["/info"].  If it is answered, ["/status"] is asked next; as long
    as nothing disturbs that call nothing is returned, and then the
    result is the connected object with the answer to ["/info"] and
    either the answer to ["/status"] or, when that call times out, no
    status. *)
Theorem getMixerStatus_outcomes (c : OSCClient) :
  wf c →
  let start := getMixerStatus c in
  let pid := length (promises c) in
  start.1 = AwaitInfo pid
  ∧ registered "/info" pid start.2
  ∧ ∀ es c1,
      run es start.2 = Some c1 → undisturbed "/info" es start.2 = true →
      getMixerStatus_resume start.1 c1 = (start.1, c1)
      ∧ (∀ d rest c1',
           next_timer (timers c1)
           = Some (mkTimer d None (TimeoutCheck "/info" pid), rest) →
           tick c1 = Some c1' →
           (getMixerStatus_resume start.1 c1').1
           = StatusDone (StatusDisconnected (host c) (port c)
                           (timeout_message "/info")))
      ∧ (∀ m v vs, address m = "/info" → args m = v :: vs →
           let second := getMixerStatus_resume start.1 (onMessage m c1) in
           let pid' := length (promises c1) in
           second.1 = AwaitStatus v pid'
           ∧ registered "/status" pid' second.2
           ∧ ∀ es' c2,
               run es' second.2 = Some c2 →
               undisturbed "/status" es' second.2 = true →
               getMixerStatus_resume second.1 c2 = (second.1, c2)
               ∧ (∀ m' v' vs', address m' = "/status" → args m' = v' :: vs' →
                    (getMixerStatus_resume second.1 (onMessage m' c2)).1
                    = StatusDone (StatusConnected (host c) (port c) v (Some v')))
               ∧ (∀ d rest c3,
                    next_timer (timers c2)
                    = Some (mkTimer d None (TimeoutCheck "/status" pid'), rest) →
                    tick c2 = Some c3 →
                    (getMixerStatus_resume second.1 c3).1
                    = StatusDone (StatusConnected (host c) (port c) v None))).
Proof.
  intros Hwf start pid.
  pose proof (sendAndReceive_registered "/info" [] c) as Hreg.
  pose proof (sendAndReceive_host_port "/info" [] c) as [Hh Hp].
  pose proof (wf_sendAndReceive "/info" [] c Hwf) as Hwf0.
  set (c0 := (sendAndReceive "/info" [] c).2) in *.
  assert (start = (AwaitInfo pid, c0)) as -> by done.
  change ((sendAndReceive "/info" [] c).1) with pid in Hreg.
  split; [done|]. split; [done|].
  intros es c1 Hrun Hund. cbn [fst snd] in Hrun, Hund |- *.
  destruct (awaited_call "/info" pid es c0 c1 Hwf0 Hreg Hrun Hund)
    as (Hwf1 & Hpend & [Hh1 Hp1] & Hout & Hin).
  split. { cbn [getMixerStatus_resume]. by rewrite Hpend. }
  split.
  - intros d rest c1' Hn Ht. destruct (Hout d rest c1' Hn Ht) as (Hrej & Hh2 & Hp2).
    cbn [getMixerStatus_resume]. rewrite Hrej. cbn [fst]. congruence.
  - intros m v vs Ha Hargs.
    destruct (Hin m v vs Ha Hargs) as (Hful & Hh2 & Hp2).
    pose proof (onMessage_promises_length m c1) as Hlen.
    pose proof (wf_onMessage m c1 Hwf1) as Hwf2.
    set (c1m := onMessage m c1) in *.
    pose proof (sendAndReceive_registered "/status" [] c1m) as Hreg2.
    pose proof (sendAndReceive_host_port "/status" [] c1m) as [Hh3 Hp3].
    pose proof (wf_sendAndReceive "/status" [] c1m Hwf2) as Hwf3.
    rewrite sendAndReceive_pid, Hlen in Hreg2.
    set (cs := (sendAndReceive "/status" [] c1m).2) in *.
    assert (getMixerStatus_resume (AwaitInfo pid) c1m
            = (AwaitStatus v (length (promises c1)), cs)) as Hsecond.
    { cbn [getMixerStatus_resume]. rewrite Hful.
      unfold cs, sendAndReceive. cbn [new_promise]. by rewrite Hlen. }
    rewrite Hsecond. cbn [fst snd].
    split; [done|]. split; [done|].
    intros es' c2 Hrun' Hund'.
    destruct (awaited_call "/status" _ es' cs c2 Hwf3 Hreg2 Hrun' Hund')
      as (_ & Hpend' & _ & Hout' & Hin').
    split. { cbn [getMixerStatus_resume]. by rewrite Hpend'. }
    split.
    + intros m' v' vs' Ha' Hargs'.
      destruct (Hin' m' v' vs' Ha' Hargs') as (Hful' & Hh4 & Hp4).
      cbn [getMixerStatus_resume]. rewrite Hful'. cbn [fst]. congruence.
    + intros d rest c3 Hn Ht. destruct (Hout' d rest c3 Hn Ht) as (Hrej & Hh4 & Hp4).
      cbn [getMixerStatus_resume]. rewrite Hrej. cbn [fst]. congruence.
Qed.

(** On a connected client ["/info"] is answered after 100 ms and
    ["/status"] is never answered: the timeout of the ["/info"] call
    fires first and finds nothing, then the timeout of the ["/status"]
    call fires, and the status object has no status. *)
Lemma getMixerStatus_outcomes_witness :
  let start := getMixerStatus connected in
  let c1 := after [Sleep 100] start.2 in
  let m := mkMessage "/info" [VStr "X32"] in
  let second := getMixerStatus_resume start.1 (onMessage m c1) in
  let c2 := after [Tick] second.2 in
  wf connected
  ∧ run [Sleep 100] start.2 = Some c1
  ∧ undisturbed "/info" [Sleep 100] start.2 = true
  ∧ second.1 = AwaitStatus (VStr "X32") 1
  ∧ run [Tick] second.2 = Some c2
  ∧ undisturbed "/status" [Tick] second.2 = true
  ∧ clock c2 = 1000
  ∧ next_timer (timers c2)
    = Some (mkTimer 1100 None (TimeoutCheck "/status" 1),
            [mkTimer 9000 (Some 9000) KeepAlive])
  ∧ ∀ c3, tick c2 = Some c3 →
      (getMixerStatus_resume second.1 c3).1
      = StatusDone (StatusConnected "192.168.1.17" 10023 (VStr "X32") None).
Proof.
  intros start c1 m second c2.
  assert (run [Sleep 100] start.2 = Some c1) as Hrun by (vm_compute; reflexivity).
  assert (undisturbed "/info" [Sleep 100] start.2 = true) as Hund
    by (vm_compute; reflexivity).
  assert (run [Tick] second.2 = Some c2) as Hrun' by (vm_compute; reflexivity).
  assert (undisturbed "/status" [Tick] second.2 = true) as Hund'
    by (vm_compute; reflexivity).
  assert (next_timer (timers c2)
          = Some (mkTimer 1100 None (TimeoutCheck "/status" 1),
                  [mkTimer 9000 (Some 9000) KeepAlive])) as Hn
    by (vm_compute; reflexivity).
  destruct (getMixerStatus_outcomes connected wf_connected) as (_ & _ & Hgo).
  destruct (Hgo [Sleep 100] c1 Hrun Hund) as (_ & _ & Hin).
  destruct (Hin m (VStr "X32") [] eq_refl eq_refl) as (Hsecond & _ & Hgo').
  destruct (Hgo' [Tick] c2 Hrun' Hund') as (_ & _ & Hout).
  refine (conj wf_connected (conj Hrun (conj Hund (conj Hsecond
            (conj Hrun' (conj Hund' (conj _ (conj Hn _)))))))).
  - vm_compute; reflexivity.
  - intros c3 Ht. exact (Hout _ _ c3 Hn Ht).
Defined.

(** A new client that was never connected asks for its status: after
    the one second of the ["/info"] call the answer is the not-connected
    object with the timeout message. *)
Lemma getMixerStatus_unconnected_example :
  let start := getMixerStatus fresh in
  (c1 ← tick start.2; Some (getMixerStatus_resume start.1 c1).1)
  = Some (StatusDone (StatusDisconnected "192.168.1.17" 10023
                        "Timeout waiting for response from /info")).
Proof. vm_compute; reflexivity. Qed.

(** X16.  A getter called on a client that is not connected and has no
    timer queued sends nothing and fails one second later with the
    timeout error for its address, not with an error about the
    connection. *)
Theorem getter_when_disconnected
    (a : string) (args0 : list value) (c : OSCClient) :
  isConnected c = false → timers c = [] →
  let call := sendAndReceive a args0 c in
  outbox call.2 = outbox c
  ∧ promises call.2 !! call.1 = Some Pending
  ∧ ∃ c', tick call.2 = Some c'
          ∧ clock c' = clock c + 1000
          ∧ promises c' !! call.1 = Some (Rejected (timeout_message a))
          ∧ responseCallbacks c' !! a = None
          ∧ outbox c' = outbox c
          ∧ timers c' = [].
Proof.
  intros Hc Htm call.
  pose proof (sendAndReceive_registered a args0 c) as [Hcb Hp].
  fold call in Hcb, Hp.
  assert (outbox call.2 = outbox c) as Hout.
  { unfold call. rewrite sendAndReceive_outbox.
    by rewrite sendCommand_disconnected. }
  assert (timers call.2
          = [mkTimer (clock c + 1000) None (TimeoutCheck a call.1)]) as Htm'.
  { unfold call at 1. by rewrite sendAndReceive_timers, Htm. }
  split; [done|]. split; [done|].
  assert (next_timer (timers call.2)
          = Some (mkTimer (clock c + 1000) None (TimeoutCheck a call.1), []))
    as Hn by (by rewrite Htm').
  destruct (tick_timeout a call.1 _ [] call.2 Hn Hp (ex_intro _ _ Hcb))
    as (c' & Ht & Hclk & Hrej & Hdel & _).
  exists c'. split; [done|].
  assert (clock call.2 = clock c) as Hclk0
    by (unfold call; apply sendAndReceive_clock).
  split; [lia|]. split; [done|]. split; [done|].
  unfold tick in Ht. rewrite Hn in Ht. apply (inj Some) in Ht. subst c'.
  cbn [callback]. split.
  - rewrite run_callback_TimeoutCheck_outbox.
    unfold set_clock, set_timers. by cbn [outbox].
  - rewrite run_callback_timers. unfold set_clock, set_timers. by cbn [timers].
Qed.

Lemma getter_when_disconnected_witness :
  isConnected fresh = false ∧ timers fresh = []
  ∧ ∃ c', tick (sendAndReceive "/info" [] fresh).2 = Some c'
          ∧ clock c' = 1000
          ∧ promises c'
            = [Rejected "Timeout waiting for response from /info"].
Proof.
  destruct (getter_when_disconnected "/info" [] fresh eq_refl eq_refl)
    as (_ & _ & c' & Ht & Hclk & _).
  refine (conj eq_refl (conj eq_refl _)).
  exists c'. split; [exact Ht|]. split; [exact Hclk|].
  vm_compute in Ht. injection Ht as <-. reflexivity.
Defined.
